(** * SceneManager and fragment shader: a shallow embedding

    The development follows [Source/SceneManager.cpp] and
    [shaders/fragmentShader.glsl].

    Conventions.
    - C++ [int] values are integers [Z]; a [GLuint] is a [Z] in
      [0, 2^32) and its conversion to [int] is written out.
    - [float] values are idealised as real numbers [R]: rounding, infinities
      and NaN are outside the model.
    - An access outside the texture array, or a call through a null
      [m_pShaderManager], is undefined behaviour: the operation returns
      [None].
    - The OpenGL context, the image decoder and the console are external;
      they are represented by the state they leave behind (texture names in
      use, the calls issued, the messages printed).
    - GLM and the GLSL built-ins are libraries; their functions are written
      out from their reference definitions. *)

From Stdlib Require Import Reals Lra ZArith Lia List String.
From stdpp Require Import base option list strings gmap.

Local Open Scope Z_scope.

(** ** Integer types *)

Definition GLuint := Z.

(** Conversion of an unsigned 32-bit value to [int] (two's complement). *)
Definition int_of_GLuint (u : GLuint) : Z :=
  if u <? 2 ^ 31 then u else u - 2 ^ 32.

(** ** GLM vectors and matrices *)

Record vec2 := mkVec2 { v2x : R; v2y : R }.
Record vec3 := mkVec3 { v3x : R; v3y : R; v3z : R }.
Record vec4 := mkVec4 { v4x : R; v4y : R; v4z : R; v4w : R }.

(** A [glm::mat4] is stored as four columns; [m[i]] is column [i]. *)
Record mat4 := mkMat4 { col0 : vec4; col1 : vec4; col2 : vec4; col3 : vec4 }.

(** ** Data of the scene manager *)

Record TEXTURE_INFO := mkTexture { tex_tag : string; tex_ID : GLuint }.

Record OBJECT_MATERIAL := mkMaterial {
  mat_tag : string;
  diffuseColor : vec3;
  specularColor : vec3;
  shininess : R
}.

(** Modelled from the spec: the header [SceneManager.h] is not part of the
    sources; the texture array [m_textureIDs] has the 16 slots that the
    comments of [BindGLTextures] and [LoadSceneTextures] speak of. *)
Definition MAX_TEXTURES : Z := 16.

(** ** External world *)

Record Image := mkImage {
  img_width : Z;
  img_height : Z;
  img_channels : Z
}.

Inductive GLformat := GL_RGB8_RGB | GL_RGBA8_RGBA.

Inductive GLparam :=
| WRAP_S_REPEAT | WRAP_T_REPEAT | MIN_FILTER_LINEAR | MAG_FILTER_LINEAR.

Inductive GLcall :=
| glGenTextures (name : GLuint)
| glBindTexture (name : GLuint)
| glTexParameteri (p : GLparam)
| glTexImage2D (fmt : GLformat) (width height : Z)
| glGenerateMipmap
| glActiveTexture (unit : Z)
| glDeleteTextures (name : GLuint).

Inductive Message :=
| MsgLoaded (filename : string) (width height channels : Z)
| MsgNotImplemented (channels : Z)
| MsgCouldNotLoad (filename : string).

(** [glDeleteTextures] belongs to the interface of the context; no function of
    the scene manager issues it.

    [gl_names]: the texture names in use, newest first.  [gl_calls]: every
    call issued, newest first.  [stb_live]: decoder buffers not yet freed. *)
Record World := mkWorld {
  gl_names : list GLuint;
  gl_calls : list GLcall;
  stb_live : nat;
  console : list Message
}.

Definition gl_call (c : GLcall) (w : World) : World :=
  mkWorld (gl_names w) (c :: gl_calls w) (stb_live w) (console w).

Definition print (m : Message) (w : World) : World :=
  mkWorld (gl_names w) (gl_calls w) (stb_live w) (m :: console w).

Definition stb_alloc (w : World) : World :=
  mkWorld (gl_names w) (gl_calls w) (S (stb_live w)) (console w).

Definition stbi_image_free (w : World) : World :=
  mkWorld (gl_names w) (gl_calls w) (pred (stb_live w)) (console w).

(** ** Uniform state of the shading program *)

Inductive Uniform :=
| UInt (i : Z)
| UFloat (x : R)
| UVec2 (v : vec2)
| UVec3 (v : vec3)
| UVec4 (v : vec4)
| UMat4 (m : mat4)
| USampler (slot : Z).

Abbreviation ShaderManager := (gmap string Uniform).

(** Modelled from the spec: [ShaderManager] is not part of the sources; each
    setter is a direct pass-through to the named uniform of the program. *)
Definition setUniform (name : string) (u : Uniform)
  (sh : ShaderManager) : ShaderManager := <[name := u]> sh.

Record SceneManager := mkScene {
  m_pShaderManager : option ShaderManager;
  m_textureIDs : list TEXTURE_INFO;
  m_loadedTextures : Z;
  m_objectMaterials : list OBJECT_MATERIAL;
  world : World
}.

Definition with_world (w : World) (s : SceneManager) : SceneManager :=
  mkScene (m_pShaderManager s) (m_textureIDs s) (m_loadedTextures s)
    (m_objectMaterials s) w.

Definition with_shader (sh : ShaderManager) (s : SceneManager) : SceneManager :=
  mkScene (Some sh) (m_textureIDs s) (m_loadedTextures s)
    (m_objectMaterials s) (world s).

(** The registered entries: the first [m_loadedTextures] array elements. *)
Definition entries (s : SceneManager) : list TEXTURE_INFO :=
  take (Z.to_nat (m_loadedTextures s)) (m_textureIDs s).

(** The array has its declared size and the count stays inside it. *)
Definition registry_ok (s : SceneManager) : Prop :=
  Z.of_nat (length (m_textureIDs s)) = MAX_TEXTURES /\
  0 <= m_loadedTextures s <= MAX_TEXTURES.

(** ** Texture registry *)

Section TextureRegistry.

(** [gen_name used]: the name [glGenTextures] hands out when the names
    [used] are in use.  [stbi_load]: the decoder. *)
Variable gen_name : list GLuint -> GLuint.
Variable stbi_load : string -> option Image.

(** [glGenTextures(1, &name)] *)
Definition gen_texture (w : World) : GLuint * World :=
  let name := gen_name (gl_names w) in
  (name, mkWorld (name :: gl_names w) (glGenTextures name :: gl_calls w)
           (stb_live w) (console w)).

(** The names handed out by [k] successive calls of [glGenTextures], in
    the order of the calls. *)
Fixpoint gen_names (k : nat) (used : list GLuint) : list GLuint :=
  match k with
  | O => []
  | S k' => gen_name used :: gen_names k' (gen_name used :: used)
  end.

(** [for (int i = start; i < start + steps; i++) body] *)
Fixpoint for_loop {A : Type} (steps : nat) (i : Z)
    (body : Z -> A -> option A) (a : A) : option A :=
  match steps with
  | O => Some a
  | S k => a' ← body i a; for_loop k (i + 1) body a'
  end.

(** [m_textureIDs[i]] *)
Definition texture_at (s : SceneManager) (i : Z) : option TEXTURE_INFO :=
  if i <? 0 then None else m_textureIDs s !! Z.to_nat i.

Definition set_texture_at (i : Z) (e : TEXTURE_INFO)
    (s : SceneManager) : SceneManager :=
  mkScene (m_pShaderManager s) (<[Z.to_nat i := e]> (m_textureIDs s))
    (m_loadedTextures s) (m_objectMaterials s) (world s).

Definition CreateGLTexture (filename : string) (tag : string)
    (s : SceneManager) : option (bool * SceneManager) :=
  match stbi_load filename with
  | Some image =>
      let w := stb_alloc (world s) in
      let w := print (MsgLoaded filename (img_width image)
                        (img_height image) (img_channels image)) w in
      let '(textureID, w) := gen_texture w in
      let w := gl_call (glBindTexture textureID) w in
      let w := gl_call (glTexParameteri WRAP_S_REPEAT) w in
      let w := gl_call (glTexParameteri WRAP_T_REPEAT) w in
      let w := gl_call (glTexParameteri MIN_FILTER_LINEAR) w in
      let w := gl_call (glTexParameteri MAG_FILTER_LINEAR) w in
      let upload (fmt : GLformat) :=
        let w := gl_call (glTexImage2D fmt (img_width image)
                            (img_height image)) w in
        let w := gl_call glGenerateMipmap w in
        let w := stbi_image_free w in
        let w := gl_call (glBindTexture 0) w in
        match texture_at s (m_loadedTextures s) with
        | Some _ =>
            let s := set_texture_at (m_loadedTextures s)
                       (mkTexture tag textureID) s in
            Some (true,
                  mkScene (m_pShaderManager s) (m_textureIDs s)
                    (m_loadedTextures s + 1) (m_objectMaterials s) w)
        | None => None
        end in
      if img_channels image =? 3 then upload GL_RGB8_RGB
      else if img_channels image =? 4 then upload GL_RGBA8_RGBA
      else
        let w := print (MsgNotImplemented (img_channels image)) w in
        Some (false, with_world w s)
  | None =>
      Some (false, with_world (print (MsgCouldNotLoad filename) (world s)) s)
  end.

Definition BindGLTextures (s : SceneManager) : option SceneManager :=
  for_loop (Z.to_nat (m_loadedTextures s)) 0
    (fun i s =>
       e ← texture_at s i;
       let w := gl_call (glActiveTexture i) (world s) in
       let w := gl_call (glBindTexture (tex_ID e)) w in
       Some (with_world w s))
    s.

Definition DestroyGLTextures_body (i : Z) (s : SceneManager)
    : option SceneManager :=
  e ← texture_at s i;
  let '(name, w) := gen_texture (world s) in
  Some (with_world w (set_texture_at i (mkTexture (tex_tag e) name) s)).

Definition DestroyGLTextures (s : SceneManager) : option SceneManager :=
  for_loop (Z.to_nat (m_loadedTextures s)) 0 DestroyGLTextures_body s.

(** The [while ((index < m_loadedTextures) && (bFound == false))] loop
    shared by the two lookups; [steps] counts the indices left and
    [pick index entry] is the value stored when the tag matches. *)
Fixpoint find_texture_loop (s : SceneManager) (tag : string)
    (pick : Z -> TEXTURE_INFO -> Z) (steps : nat) (index : Z)
    : option Z :=
  match steps with
  | O => Some (-1)
  | S k =>
      e ← texture_at s index;
      if String.eqb (tex_tag e) tag then Some (pick index e)
      else find_texture_loop s tag pick k (index + 1)
  end.

Definition FindTextureID (tag : string) (s : SceneManager) : option Z :=
  find_texture_loop s tag (fun _ e => int_of_GLuint (tex_ID e))
    (Z.to_nat (m_loadedTextures s)) 0.

Definition FindTextureSlot (tag : string) (s : SceneManager) : option Z :=
  find_texture_loop s tag (fun index _ => index)
    (Z.to_nat (m_loadedTextures s)) 0.

(** [LoadSceneTextures]: the four textures of the scene, then the binding to
    the texture units.  The [bool] results are assigned and not read. *)
Definition LoadSceneTextures (s : SceneManager) : option SceneManager :=
  '(_, s) ← CreateGLTexture "textures/leaves3.jpg" "leaves" s;
  '(_, s) ← CreateGLTexture "textures/leaves.jpg" "pineleaves" s;
  '(_, s) ← CreateGLTexture "textures/log.jpg" "log" s;
  '(_, s) ← CreateGLTexture "textures/stone.jpg" "stone" s;
  BindGLTextures s.

End TextureRegistry.

(** ** Material catalog *)

(** The scan of [FindMaterial]: the first entry with the tag overwrites the
    three appearance fields of [material]; its tag is not assigned. *)
Fixpoint FindMaterial_scan (rest : list OBJECT_MATERIAL) (tag : string)
    (material : OBJECT_MATERIAL) : OBJECT_MATERIAL :=
  match rest with
  | [] => material
  | m :: rest' =>
      if String.eqb (mat_tag m) tag then
        mkMaterial (mat_tag material) (diffuseColor m) (specularColor m)
          (shininess m)
      else FindMaterial_scan rest' tag material
  end.

(** [material] is the reference parameter: its value on entry is an argument
    and its value on exit is returned next to the [bool]. *)
Definition FindMaterial (tag : string) (material : OBJECT_MATERIAL)
    (s : SceneManager) : bool * OBJECT_MATERIAL :=
  if (length (m_objectMaterials s) =? 0)%nat then (false, material)
  else (true, FindMaterial_scan (m_objectMaterials s) tag material).

(** [garbage] is the indeterminate content of the local
    [OBJECT_MATERIAL material], which has no initialiser. *)
Definition SetShaderMaterial (garbage : OBJECT_MATERIAL) (materialTag : string)
    (s : SceneManager) : option SceneManager :=
  if (0 <? length (m_objectMaterials s))%nat then
    let '(bReturn, material) := FindMaterial materialTag garbage s in
    if bReturn then
      sh ← m_pShaderManager s;
      let sh := setUniform "material.diffuseColor"
                  (UVec3 (diffuseColor material)) sh in
      let sh := setUniform "material.specularColor"
                  (UVec3 (specularColor material)) sh in
      let sh := setUniform "material.shininess"
                  (UFloat (shininess material)) sh in
      Some (with_shader sh s)
    else Some s
  else Some s.

(** ** Vector algebra shared by GLM and GLSL *)

Section VectorAlgebra.
Local Open Scope R_scope.

Definition v3add (a b : vec3) : vec3 :=
  mkVec3 (v3x a + v3x b) (v3y a + v3y b) (v3z a + v3z b).
Definition v3sub (a b : vec3) : vec3 :=
  mkVec3 (v3x a - v3x b) (v3y a - v3y b) (v3z a - v3z b).
(** component-wise product *)
Definition v3mul (a b : vec3) : vec3 :=
  mkVec3 (v3x a * v3x b) (v3y a * v3y b) (v3z a * v3z b).
(** vector times scalar *)
Definition v3scale (a : vec3) (k : R) : vec3 :=
  mkVec3 (v3x a * k) (v3y a * k) (v3z a * k).
Definition v3neg (a : vec3) : vec3 :=
  mkVec3 (- v3x a) (- v3y a) (- v3z a).
Definition dot (a b : vec3) : R :=
  v3x a * v3x b + v3y a * v3y b + v3z a * v3z b.
Definition length3 (a : vec3) : R := sqrt (dot a a).
(** [glm::normalize(v) = v * inversesqrt(dot(v, v))] *)
Definition normalize (a : vec3) : vec3 := v3scale a (/ sqrt (dot a a)).
(** [reflect(I, N) = I - 2 * dot(N, I) * N] *)
Definition reflect (i n : vec3) : vec3 :=
  v3sub i (v3scale n (2 * dot n i)).

Definition v4add (a b : vec4) : vec4 :=
  mkVec4 (v4x a + v4x b) (v4y a + v4y b) (v4z a + v4z b) (v4w a + v4w b).
Definition v4scale (a : vec4) (k : R) : vec4 :=
  mkVec4 (v4x a * k) (v4y a * k) (v4z a * k) (v4w a * k).

(** [vec3(v)] of a [vec4] and [vec4(v, w)] of a [vec3] *)
Definition vec3_of_vec4 (v : vec4) : vec3 := mkVec3 (v4x v) (v4y v) (v4z v).
Definition vec4_of_vec3 (v : vec3) (w : R) : vec4 :=
  mkVec4 (v3x v) (v3y v) (v3z v) w.

End VectorAlgebra.

(** ** GLM transformations *)

Module glm.
Local Open Scope R_scope.

(** [glm::radians] *)
Definition radians (degrees : R) : R := degrees * (PI / 180).

(** [mat4(1.0f)] *)
Definition identity : mat4 :=
  mkMat4 (mkVec4 1 0 0 0) (mkVec4 0 1 0 0) (mkVec4 0 0 1 0) (mkVec4 0 0 0 1).

(** [m * v]: the combination of the columns of [m] by the components of
    [v]. *)
Definition mul_vec (m : mat4) (v : vec4) : vec4 :=
  v4add (v4add (v4scale (col0 m) (v4x v)) (v4scale (col1 m) (v4y v)))
        (v4add (v4scale (col2 m) (v4z v)) (v4scale (col3 m) (v4w v))).

(** [m1 * m2]: column [j] of the product is
    [m1[0] * m2[j][0] + m1[1] * m2[j][1] + m1[2] * m2[j][2] + m1[3] * m2[j][3]]. *)
Definition mul_col (m1 : mat4) (b : vec4) : vec4 :=
  v4add (v4add (v4add (v4scale (col0 m1) (v4x b)) (v4scale (col1 m1) (v4y b)))
               (v4scale (col2 m1) (v4z b)))
        (v4scale (col3 m1) (v4w b)).

Definition mul (m1 m2 : mat4) : mat4 :=
  mkMat4 (mul_col m1 (col0 m2)) (mul_col m1 (col1 m2))
         (mul_col m1 (col2 m2)) (mul_col m1 (col3 m2)).

(** [glm::translate(m, v)] *)
Definition translate_mat (m : mat4) (v : vec3) : mat4 :=
  mkMat4 (col0 m) (col1 m) (col2 m)
    (v4add (v4add (v4add (v4scale (col0 m) (v3x v)) (v4scale (col1 m) (v3y v)))
                  (v4scale (col2 m) (v3z v)))
           (col3 m)).

(** [glm::rotate(m, angle, v)] *)
Definition rotate_mat (m : mat4) (angle : R) (v : vec3) : mat4 :=
  let c := cos angle in
  let s := sin angle in
  let axis := normalize v in
  let temp := v3scale axis (1 - c) in
  let r00 := c + v3x temp * v3x axis in
  let r01 := v3x temp * v3y axis + s * v3z axis in
  let r02 := v3x temp * v3z axis - s * v3y axis in
  let r10 := v3y temp * v3x axis - s * v3z axis in
  let r11 := c + v3y temp * v3y axis in
  let r12 := v3y temp * v3z axis + s * v3x axis in
  let r20 := v3z temp * v3x axis + s * v3y axis in
  let r21 := v3z temp * v3y axis - s * v3x axis in
  let r22 := c + v3z temp * v3z axis in
  let combine a b d :=
    v4add (v4add (v4scale (col0 m) a) (v4scale (col1 m) b))
          (v4scale (col2 m) d) in
  mkMat4 (combine r00 r01 r02) (combine r10 r11 r12) (combine r20 r21 r22)
         (col3 m).

(** [glm::scale(m, v)] *)
Definition scale_mat (m : mat4) (v : vec3) : mat4 :=
  mkMat4 (v4scale (col0 m) (v3x v)) (v4scale (col1 m) (v3y v))
         (v4scale (col2 m) (v3z v)) (col3 m).

(** The one-argument forms of [glm/gtx/transform.hpp] start from the
    identity. *)
Definition translate (v : vec3) : mat4 := translate_mat identity v.
Definition rotate (angle : R) (v : vec3) : mat4 := rotate_mat identity angle v.
Definition scale (v : vec3) : mat4 := scale_mat identity v.

End glm.

(** ** Shader parameter bridge: the model matrix *)

(** The local [modelView] of [SetTransformations]. *)
Definition modelView (scaleXYZ : vec3)
    (XrotationDegrees YrotationDegrees ZrotationDegrees : R)
    (positionXYZ : vec3) : mat4 :=
  let scale := glm.scale scaleXYZ in
  let rotationX := glm.rotate (glm.radians XrotationDegrees) (mkVec3 1 0 0) in
  let rotationY := glm.rotate (glm.radians YrotationDegrees) (mkVec3 0 1 0) in
  let rotationZ := glm.rotate (glm.radians ZrotationDegrees) (mkVec3 0 0 1) in
  let translation := glm.translate positionXYZ in
  glm.mul (glm.mul (glm.mul (glm.mul translation rotationZ) rotationY)
             rotationX) scale.

Definition SetTransformations (scaleXYZ : vec3)
    (XrotationDegrees YrotationDegrees ZrotationDegrees : R)
    (positionXYZ : vec3) (s : SceneManager) : SceneManager :=
  match m_pShaderManager s with
  | Some sh =>
      with_shader
        (setUniform "model"
           (UMat4 (modelView scaleXYZ XrotationDegrees YrotationDegrees
                     ZrotationDegrees positionXYZ)) sh) s
  | None => s
  end.

(** ** Lighting stage: [fragmentShader.glsl] *)

Module Shader.
Local Open Scope R_scope.

Local Notation "a .+ b" := (v3add a b) (at level 50, left associativity).
Local Notation "a .* b" := (v3mul a b) (at level 40, left associativity).
Local Notation "a *. k" := (v3scale a k) (at level 40, left associativity).

Record Material := mkMaterial {
  m_diffuseColor : vec3;
  m_specularColor : vec3;
  m_shininess : R
}.

Record DirectionalLight := mkDirectionalLight {
  dl_direction : vec3;
  dl_ambient : vec3;
  dl_diffuse : vec3;
  dl_specular : vec3;
  dl_bActive : bool
}.

Record PointLight := mkPointLight {
  pl_position : vec3;
  pl_ambient : vec3;
  pl_diffuse : vec3;
  pl_specular : vec3;
  pl_bActive : bool
}.

Record SpotLight := mkSpotLight {
  sl_position : vec3;
  sl_direction : vec3;
  sl_cutOff : R;
  sl_outerCutOff : R;
  sl_constant : R;
  sl_linear : R;
  sl_quadratic : R;
  sl_ambient : vec3;
  sl_diffuse : vec3;
  sl_specular : vec3;
  sl_bActive : bool
}.

Definition TOTAL_POINT_LIGHTS : nat := 5.

(** The uniforms.  [pointLights i] is [pointLights[i]]; the shader reads
    the indices below [TOTAL_POINT_LIGHTS] only. *)
Record Uniforms := mkUniforms {
  bUseTexture : bool;
  bUseLighting : bool;
  objectColor : vec4;
  viewPosition : vec3;
  directionalLight : DirectionalLight;
  pointLights : nat -> PointLight;
  spotLight : SpotLight;
  material : Material;
  objectTexture : Z;
  UVscale : vec2
}.

(** The interpolated inputs of one fragment. *)
Record Fragment := mkFragment {
  fragmentPosition : vec3;
  fragmentVertexNormal : vec3;
  fragmentTextureCoordinate : vec2
}.

(** GLSL [clamp(x, minVal, maxVal) = min(max(x, minVal), maxVal)] *)
Definition clamp (x minVal maxVal : R) : R := Rmin (Rmax x minVal) maxVal.

Section Program.

(** [texture sampler coord]: the texel the bound texture yields;
    [pow]: the GLSL power function. *)
Variable texture : Z -> vec2 -> vec4.
Variable pow : R -> R -> R.

Variable u : Uniforms.
Variable frag : Fragment.

Definition fragmentTextureCoordinateScaled : vec2 :=
  mkVec2 (v2x (fragmentTextureCoordinate frag) * v2x (UVscale u))
         (v2y (fragmentTextureCoordinate frag) * v2y (UVscale u)).

Definition sampled : vec4 :=
  texture (objectTexture u) fragmentTextureCoordinateScaled.

Definition CalcDirectionalLight (light : DirectionalLight)
    (normal viewDir : vec3) : vec3 :=
  let lightDirection := normalize (v3neg (dl_direction light)) in
  let diff := Rmax (dot normal lightDirection) 0 in
  let reflectDir := reflect (v3neg lightDirection) normal in
  let spec := pow (Rmax (dot viewDir reflectDir) 0) (m_shininess (material u)) in
  let '(ambient, diffuse, specular) :=
    if bUseTexture u then
      (dl_ambient light .* vec3_of_vec4 sampled,
       dl_diffuse light *. diff .* m_diffuseColor (material u)
         .* vec3_of_vec4 sampled,
       dl_specular light *. spec .* m_specularColor (material u)
         .* vec3_of_vec4 sampled)
    else
      (dl_ambient light .* vec3_of_vec4 (objectColor u),
       dl_diffuse light *. diff .* m_diffuseColor (material u)
         .* vec3_of_vec4 (objectColor u),
       dl_specular light *. spec .* m_specularColor (material u)
         .* vec3_of_vec4 (objectColor u)) in
  ambient .+ diffuse .+ specular.

Definition CalcPointLight (light : PointLight)
    (normal fragPos viewDir : vec3) : vec3 :=
  let lightDir := normalize (v3sub (pl_position light) fragPos) in
  let diff := Rmax (dot normal lightDir) 0 in
  let reflectDir := reflect (v3neg lightDir) normal in
  let specularComponent :=
    pow (Rmax (dot viewDir reflectDir) 0) (m_shininess (material u)) in
  let '(ambient, diffuse, specular) :=
    if bUseTexture u then
      (pl_ambient light .* vec3_of_vec4 sampled,
       pl_diffuse light *. diff .* m_diffuseColor (material u)
         .* vec3_of_vec4 sampled,
       pl_specular light *. specularComponent
         .* m_specularColor (material u))
    else
      (pl_ambient light .* vec3_of_vec4 (objectColor u),
       pl_diffuse light *. diff .* m_diffuseColor (material u)
         .* vec3_of_vec4 (objectColor u),
       pl_specular light *. specularComponent
         .* m_specularColor (material u)) in
  ambient .+ diffuse .+ specular.

(** The locals [attenuation], [theta] and [intensity] of
    [CalcSpotLight]. *)
Definition spot_attenuation (light : SpotLight) (fragPos : vec3) : R :=
  let distance := length3 (v3sub (sl_position light) fragPos) in
  1 / (sl_constant light + sl_linear light * distance
       + sl_quadratic light * (distance * distance)).

Definition spot_theta (light : SpotLight) (fragPos : vec3) : R :=
  let lightDir := normalize (v3sub (sl_position light) fragPos) in
  dot lightDir (normalize (v3neg (sl_direction light))).

Definition spot_intensity (light : SpotLight) (fragPos : vec3) : R :=
  let theta := spot_theta light fragPos in
  let epsilon := sl_cutOff light - sl_outerCutOff light in
  clamp ((theta - sl_outerCutOff light) / epsilon) 0 1.

Definition CalcSpotLight (light : SpotLight)
    (normal fragPos viewDir : vec3) : vec3 :=
  let lightDir := normalize (v3sub (sl_position light) fragPos) in
  let diff := Rmax (dot normal lightDir) 0 in
  let reflectDir := reflect (v3neg lightDir) normal in
  let spec := pow (Rmax (dot viewDir reflectDir) 0) (m_shininess (material u)) in
  let attenuation := spot_attenuation light fragPos in
  let intensity := spot_intensity light fragPos in
  let '(ambient, diffuse, specular) :=
    if bUseTexture u then
      (sl_ambient light .* vec3_of_vec4 sampled,
       sl_diffuse light *. diff .* m_diffuseColor (material u)
         .* vec3_of_vec4 sampled,
       sl_specular light *. spec .* m_specularColor (material u)
         .* vec3_of_vec4 sampled)
    else
      (sl_ambient light .* vec3_of_vec4 (objectColor u),
       sl_diffuse light *. diff .* m_diffuseColor (material u)
         .* vec3_of_vec4 (objectColor u),
       sl_specular light *. spec .* m_specularColor (material u)
         .* vec3_of_vec4 (objectColor u)) in
  let ambient := ambient *. (attenuation * intensity) in
  let diffuse := diffuse *. (attenuation * intensity) in
  let specular := specular *. (attenuation * intensity) in
  ambient .+ diffuse .+ specular.

(** [main]: the value written to [fragmentColor]. *)
Definition main : vec4 :=
  if bUseLighting u then
    let phongResult := mkVec3 0 0 0 in
    let norm := normalize (fragmentVertexNormal frag) in
    let viewDir := normalize (v3sub (viewPosition u) (fragmentPosition frag)) in
    let phongResult :=
      if dl_bActive (directionalLight u) then
        phongResult .+ CalcDirectionalLight (directionalLight u) norm viewDir
      else phongResult in
    let phongResult :=
      fold_left
        (fun phongResult i =>
           if pl_bActive (pointLights u i) then
             phongResult .+ CalcPointLight (pointLights u i) norm
                              (fragmentPosition frag) viewDir
           else phongResult)
        (seq 0 TOTAL_POINT_LIGHTS) phongResult in
    let phongResult :=
      if sl_bActive (spotLight u) then
        phongResult .+ CalcSpotLight (spotLight u) norm
                         (fragmentPosition frag) viewDir
      else phongResult in
    if bUseTexture u then vec4_of_vec3 phongResult (v4w sampled)
    else vec4_of_vec3 phongResult (v4w (objectColor u))
  else
    if bUseTexture u then sampled else objectColor u.

End Program.

End Shader.

(** ** Shader parameter bridge: colour, texture, UV scale *)

(** [setIntValue(name, false)] and [setIntValue(name, true)] pass 0 and 1. *)
Definition SetShaderColor (redColorValue greenColorValue blueColorValue
    alphaValue : R) (s : SceneManager) : SceneManager :=
  let currentColor :=
    mkVec4 redColorValue greenColorValue blueColorValue alphaValue in
  match m_pShaderManager s with
  | Some sh =>
      let sh := setUniform "bUseTexture" (UInt 0) sh in
      let sh := setUniform "objectColor" (UVec4 currentColor) sh in
      with_shader sh s
  | None => s
  end.

Definition SetShaderTexture (textureTag : string) (s : SceneManager)
    : option SceneManager :=
  match m_pShaderManager s with
  | Some sh =>
      let sh := setUniform "bUseTexture" (UInt 1) sh in
      textureID ← FindTextureSlot textureTag s;
      let sh := setUniform "objectTexture" (USampler textureID) sh in
      Some (with_shader sh s)
  | None => Some s
  end.

Definition SetTextureUVScale (u v : R) (s : SceneManager) : SceneManager :=
  match m_pShaderManager s with
  | Some sh => with_shader (setUniform "UVscale" (UVec2 (mkVec2 u v)) sh) s
  | None => s
  end.

(** ** Scene composer *)

Inductive Mesh := PlaneMesh | CylinderMesh | SphereMesh | Pyramid3Mesh.

(** Modelled from the spec: [ShapeMeshes] is not part of the sources; a call
    of one of its draw methods issues the mesh with the uniform state that
    is current at the call.  A draw is recorded with that state. *)
Record DrawCall := mkDrawCall {
  dc_mesh : Mesh;
  dc_uniforms : option ShaderManager
}.

(** The scene manager and the draws issued so far, newest first. *)
Abbreviation Frame := (SceneManager * list DrawCall)%type.

Definition set (f : SceneManager -> SceneManager) (fr : Frame)
    : option Frame := Some (f fr.1, fr.2).

Definition set_opt (f : SceneManager -> option SceneManager) (fr : Frame)
    : option Frame := s ← f fr.1; Some (s, fr.2).

Definition draw (m : Mesh) (fr : Frame) : option Frame :=
  Some (fr.1, mkDrawCall m (m_pShaderManager fr.1) :: fr.2).

Section Composer.
Local Open Scope R_scope.

(** The ground plane and the sky plane. *)
Definition DrawPlanes (garbage : OBJECT_MATERIAL) (posx posy posz : R)
    (fr : Frame) : option Frame :=
  fr ← set (SetTransformations (mkVec3 200 1 200) 0 0 0
              (mkVec3 (0 + posx) (0 + posy) (0 + posz))) fr;
  fr ← set (SetShaderColor 0.0 0.502 0.0 1) fr;
  fr ← set_opt (SetShaderMaterial garbage "greenery") fr;
  fr ← draw PlaneMesh fr;
  fr ← set (SetTransformations (mkVec3 300 1 300) 90 0 0
              (mkVec3 (0 + posx) (15 + posy) (-50 + posz))) fr;
  fr ← set (SetShaderColor 0.416 0.835 0.851 1.0) fr;
  fr ← set_opt (SetShaderMaterial garbage "sky") fr;
  fr ← draw PlaneMesh fr;
  Some fr.

(** Trunk, crown root and leaf mass. *)
Definition DrawSphericalTree (garbage : OBJECT_MATERIAL) (posx posy posz : R)
    (fr : Frame) : option Frame :=
  fr ← set (SetTransformations (mkVec3 1 8 1) 0 0 0
              (mkVec3 (0 + posx) (0 + posy) (0 + posz))) fr;
  fr ← set (SetShaderColor 0.235 0.702 0.443 1) fr;
  fr ← set_opt (SetShaderTexture "log") fr;
  fr ← set_opt (SetShaderMaterial garbage "wood") fr;
  fr ← draw CylinderMesh fr;
  fr ← set (SetTransformations (mkVec3 2 2 2) 0 0 0
              (mkVec3 (0 + posx) (8 + posy) (0 + posz))) fr;
  fr ← set (SetShaderColor 0.235 0.702 0.443 1) fr;
  fr ← set_opt (SetShaderMaterial garbage "greenery") fr;
  fr ← draw SphereMesh fr;
  fr ← set (SetTransformations (mkVec3 4 4 4) 0 0 0
              (mkVec3 (0 + posx) (10 + posy) (0 + posz))) fr;
  fr ← set (SetShaderColor 0.065 0.532 0.273 1) fr;
  fr ← set_opt (SetShaderMaterial garbage "greenery") fr;
  fr ← set_opt (SetShaderTexture "leaves") fr;
  fr ← draw SphereMesh fr;
  Some fr.

(** Trunk and three tiers. *)
Definition DrawPyramidTree (garbage : OBJECT_MATERIAL) (posx posy posz : R)
    (fr : Frame) : option Frame :=
  fr ← set (SetTransformations (mkVec3 1 8 1) 0 0 0
              (mkVec3 (12 + posx) (0 + posy) (0 + posz))) fr;
  fr ← set (SetShaderColor 0.235 0.702 0.443 1) fr;
  fr ← set_opt (SetShaderTexture "log") fr;
  fr ← set_opt (SetShaderMaterial garbage "wood") fr;
  fr ← draw CylinderMesh fr;
  fr ← set (SetTransformations (mkVec3 9 9 9) 0 0 0
              (mkVec3 (12 + posx) (10.5 + posy) (-0.5 + posz))) fr;
  fr ← set (SetShaderColor 0.065 0.532 0.273 1) fr;
  fr ← set_opt (SetShaderTexture "pineleaves") fr;
  fr ← set_opt (SetShaderMaterial garbage "greenery") fr;
  fr ← draw Pyramid3Mesh fr;
  fr ← set (SetTransformations (mkVec3 7 7 7) 0 0 0
              (mkVec3 (12 + posx) (15 + posy) (-0.5 + posz))) fr;
  fr ← set (SetShaderColor 0.065 0.532 0.273 1) fr;
  fr ← set_opt (SetShaderTexture "pineleaves") fr;
  fr ← set_opt (SetShaderMaterial garbage "greenery") fr;
  fr ← draw Pyramid3Mesh fr;
  fr ← set (SetTransformations (mkVec3 5 5 5) 0 0 0
              (mkVec3 (12 + posx) (19 + posy) (-0.5 + posz))) fr;
  fr ← set (SetShaderColor 0.065 0.532 0.273 1) fr;
  fr ← set_opt (SetShaderTexture "pineleaves") fr;
  fr ← set_opt (SetShaderMaterial garbage "greenery") fr;
  fr ← draw Pyramid3Mesh fr;
  Some fr.

(** One pyramid, turned by 180 degrees about Y. *)
Definition DrawMountain (garbage : OBJECT_MATERIAL) (posx posy posz scale : R)
    (fr : Frame) : option Frame :=
  fr ← set (SetTransformations (mkVec3 scale scale scale) 0 180 0
              (mkVec3 (0 + posx) (0 + posy) (0 + posz))) fr;
  fr ← set (SetShaderColor 0.5 0.5 0.5 1) fr;
  fr ← set_opt (SetShaderTexture "stone") fr;
  fr ← set_opt (SetShaderMaterial garbage "wood") fr;
  fr ← draw Pyramid3Mesh fr;
  Some fr.

(** Six spheres. *)
Definition DrawCloud (garbage : OBJECT_MATERIAL) (posx posy posz scale : R)
    (fr : Frame) : option Frame :=
  fr ← set (SetTransformations (mkVec3 (1.5 * scale) (1.0 * scale) (1.5 * scale)) 0 0 0
              (mkVec3 (0 + posx) (1.5 + posy) (0 + posz))) fr;
  fr ← set (SetShaderColor 0.9 0.9 0.9 1) fr;
  fr ← set_opt (SetShaderMaterial garbage "wood") fr;
  fr ← draw SphereMesh fr;
  fr ← set (SetTransformations (mkVec3 (3.0 * scale) (2.0 * scale) (3.0 * scale)) 0 0 0
              (mkVec3 (-3.5 + posx) (0 + posy) (0.5 + posz))) fr;
  fr ← set (SetShaderColor 0.9 0.9 0.9 1) fr;
  fr ← set_opt (SetShaderMaterial garbage "wood") fr;
  fr ← draw SphereMesh fr;
  fr ← set (SetTransformations (mkVec3 (3.0 * scale) (2.0 * scale) (3.0 * scale)) 0 0 0
              (mkVec3 (3.25 + posx) (0 + posy) (-0.5 + posz))) fr;
  fr ← set (SetShaderColor 0.9 0.9 0.9 1) fr;
  fr ← set_opt (SetShaderMaterial garbage "wood") fr;
  fr ← draw SphereMesh fr;
  fr ← set (SetTransformations (mkVec3 (4.0 * scale) (3.0 * scale) (4.0 * scale)) 0 0 0
              (mkVec3 (0.5 + posx) (-1 + posy) (2 + posz))) fr;
  fr ← set (SetShaderColor 0.9 0.9 0.9 1) fr;
  fr ← set_opt (SetShaderMaterial garbage "wood") fr;
  fr ← draw SphereMesh fr;
  fr ← set (SetTransformations (mkVec3 (3.0 * scale) (2.0 * scale) (3.0 * scale)) 0 0 0
              (mkVec3 (-5 + posx) (-0.5 + posy) (1 + posz))) fr;
  fr ← set (SetShaderColor 0.9 0.9 0.9 1) fr;
  fr ← set_opt (SetShaderMaterial garbage "wood") fr;
  fr ← draw SphereMesh fr;
  fr ← set (SetTransformations (mkVec3 (4.0 * scale) (2.0 * scale) (4.0 * scale)) 15 0 0
              (mkVec3 (5.5 + posx) (0 + posy) (-1.25 + posz))) fr;
  fr ← set (SetShaderColor 0.9 0.9 0.9 1) fr;
  fr ← set_opt (SetShaderMaterial garbage "wood") fr;
  fr ← draw SphereMesh fr;
  Some fr.

Definition RenderScene (garbage : OBJECT_MATERIAL) (fr : Frame)
    : option Frame :=
  fr ← DrawPlanes garbage 0.0 0.0 (-100.0) fr;
  fr ← DrawPyramidTree garbage (-5.0) 0.0 (-30.0) fr;
  fr ← DrawPyramidTree garbage 5.0 0.0 (-10.0) fr;
  fr ← DrawSphericalTree garbage (-45.0) 0.0 (-15.0) fr;
  fr ← DrawSphericalTree garbage (-40.0) 0.0 (-35.0) fr;
  fr ← DrawPyramidTree garbage 45.0 0.0 (-10.0) fr;
  fr ← DrawSphericalTree garbage 50.0 0.0 (-35.0) fr;
  fr ← DrawMountain garbage (-50.0) 25.0 (-80.0) 50.0 fr;
  fr ← DrawMountain garbage (-30.0) 15.0 (-120.0) 30.0 fr;
  fr ← DrawMountain garbage 40.0 10.0 (-80.0) 20.0 fr;
  fr ← DrawMountain garbage 55.0 24.0 (-120.0) 48.0 fr;
  fr ← DrawMountain garbage 70.0 10.0 (-80.0) 20.0 fr;
  fr ← DrawCloud garbage 10.0 100.0 (-80.0) 2.0 fr;
  fr ← DrawCloud garbage (-50.0) 85.0 (-90.0) 2.0 fr;
  fr ← DrawCloud garbage 50.0 50.0 (-70.0) 2.0 fr;
  Some fr.

End Composer.

(** ** Vocabulary of the statements *)

(** [tag] first occurs in [l] at index [i], on entry [e]. *)
Definition first_match (tag : string) (l : list TEXTURE_INFO)
    (i : nat) (e : TEXTURE_INFO) : Prop :=
  l !! i = Some e /\ tex_tag e = tag /\
  forall j e', (j < i)%nat -> l !! j = Some e' -> tex_tag e' <> tag.

(** No entry of [l] carries [tag]. *)
Definition no_match (tag : string) (l : list TEXTURE_INFO) : Prop :=
  forall j e, l !! j = Some e -> tex_tag e <> tag.

(** Every registered handle is a texture name in use, and no two registered
    entries share a handle. *)
Definition handles_ok (s : SceneManager) : Prop :=
  NoDup (map tex_ID (entries s)) /\
  forall e, e ∈ entries s -> tex_ID e ∈ gl_names (world s).

(** The calls that bind the entries [l] to the texture units from [unit]
    on, in the order in which they are issued. *)
Fixpoint bind_calls (unit : Z) (l : list TEXTURE_INFO) : list GLcall :=
  match l with
  | [] => []
  | e :: l' =>
      glActiveTexture unit :: glBindTexture (tex_ID e)
        :: bind_calls (unit + 1) l'
  end.

(** The three uniform writes of [SetShaderMaterial]. *)
Definition upload_material (material : OBJECT_MATERIAL)
    (sh : ShaderManager) : ShaderManager :=
  setUniform "material.shininess" (UFloat (shininess material))
    (setUniform "material.specularColor" (UVec3 (specularColor material))
       (setUniform "material.diffuseColor" (UVec3 (diffuseColor material)) sh)).

(** The uniform writes of the four setters that the scene composer uses. *)
Definition u_model (M : mat4) (sh : ShaderManager) : ShaderManager :=
  setUniform "model" (UMat4 M) sh.

Definition u_color (r g b a : R) (sh : ShaderManager) : ShaderManager :=
  setUniform "objectColor" (UVec4 (mkVec4 r g b a))
    (setUniform "bUseTexture" (UInt 0) sh).

Definition u_texture (slot : Z) (sh : ShaderManager) : ShaderManager :=
  setUniform "objectTexture" (USampler slot)
    (setUniform "bUseTexture" (UInt 1) sh).

Definition u_material (mats : list OBJECT_MATERIAL) (garbage : OBJECT_MATERIAL)
    (tag : string) (sh : ShaderManager) : ShaderManager :=
  match mats with
  | [] => sh
  | _ :: _ => upload_material (FindMaterial_scan mats tag garbage) sh
  end.

(** From the scene manager [s] with any shader manager attached, [F] returns,
    changes the uniform state only, and issues [n] draws, each with a uniform
    state. *)
Definition completes (s : SceneManager) (n : nat)
    (F : Frame -> option Frame) : Prop :=
  forall (sh : ShaderManager) (log : list DrawCall),
    exists sh' new,
      F (with_shader sh s, log) = Some (with_shader sh' s, new ++ log) /\
      length new = n /\
      Forall (fun c => is_Some (dc_uniforms c)) new.

(** Two uniform states that differ in [model] at most. *)
Definition agree_off_model (sh sh' : ShaderManager) : Prop :=
  forall name : string, name <> "model" -> sh' !! name = sh !! name.

(** The draw [c'] is the draw [c] moved by [d]: the same mesh, the same
    uniforms but for [model], and a model matrix that sends every point [d]
    further (times its [w]). *)
Definition shifted_draw (d : vec3) (c c' : DrawCall) : Prop :=
  dc_mesh c' = dc_mesh c /\
  exists sh sh' M M',
    dc_uniforms c = Some sh /\ dc_uniforms c' = Some sh' /\
    (forall name : string, name <> "model" -> sh' !! name = sh !! name) /\
    sh !! "model" = Some (UMat4 M) /\ sh' !! "model" = Some (UMat4 M') /\
    forall p,
      glm.mul_vec M' p =
      v4add (glm.mul_vec M p)
        (mkVec4 (v3x d * v4w p) (v3y d * v4w p) (v3z d * v4w p) 0).

Section TextbookMatrices.
Local Open Scope R_scope.

(** The textbook matrices, column by column. *)
Definition translation_matrix (t : vec3) : mat4 :=
  mkMat4 (mkVec4 1 0 0 0) (mkVec4 0 1 0 0) (mkVec4 0 0 1 0)
         (mkVec4 (v3x t) (v3y t) (v3z t) 1).

Definition scaling_matrix (k : vec3) : mat4 :=
  mkMat4 (mkVec4 (v3x k) 0 0 0) (mkVec4 0 (v3y k) 0 0)
         (mkVec4 0 0 (v3z k) 0) (mkVec4 0 0 0 1).

Definition rotation_x_matrix (a : R) : mat4 :=
  mkMat4 (mkVec4 1 0 0 0) (mkVec4 0 (cos a) (sin a) 0)
         (mkVec4 0 (- sin a) (cos a) 0) (mkVec4 0 0 0 1).

Definition rotation_y_matrix (a : R) : mat4 :=
  mkMat4 (mkVec4 (cos a) 0 (- sin a) 0) (mkVec4 0 1 0 0)
         (mkVec4 (sin a) 0 (cos a) 0) (mkVec4 0 0 0 1).

Definition rotation_z_matrix (a : R) : mat4 :=
  mkMat4 (mkVec4 (cos a) (sin a) 0 0) (mkVec4 (- sin a) (cos a) 0 0)
         (mkVec4 0 0 1 0) (mkVec4 0 0 0 1).

End TextbookMatrices.

Section PointMaps.
Local Open Scope R_scope.

(** The maps of homogeneous points that the textbook matrices stand for. *)
Definition scale_point (k : vec3) (p : vec4) : vec4 :=
  mkVec4 (v3x k * v4x p) (v3y k * v4y p) (v3z k * v4z p) (v4w p).

Definition rotate_x_point (a : R) (p : vec4) : vec4 :=
  mkVec4 (v4x p) (cos a * v4y p - sin a * v4z p)
         (sin a * v4y p + cos a * v4z p) (v4w p).

Definition rotate_y_point (a : R) (p : vec4) : vec4 :=
  mkVec4 (cos a * v4x p + sin a * v4z p) (v4y p)
         (cos a * v4z p - sin a * v4x p) (v4w p).

Definition rotate_z_point (a : R) (p : vec4) : vec4 :=
  mkVec4 (cos a * v4x p - sin a * v4y p)
         (sin a * v4x p + cos a * v4y p) (v4z p) (v4w p).

Definition translate_point (t : vec3) (p : vec4) : vec4 :=
  mkVec4 (v4x p + v3x t * v4w p) (v4y p + v3y t * v4w p)
         (v4z p + v3z t * v4w p) (v4w p).

End PointMaps.

(** [u] with its three kinds of light replaced. *)
Definition set_lights (dl : Shader.DirectionalLight)
    (pls : nat -> Shader.PointLight) (sl : Shader.SpotLight)
    (u : Shader.Uniforms) : Shader.Uniforms :=
  Shader.mkUniforms (Shader.bUseTexture u) (Shader.bUseLighting u)
    (Shader.objectColor u) (Shader.viewPosition u) dl pls sl
    (Shader.material u) (Shader.objectTexture u) (Shader.UVscale u).

(** The point light [light] moved along the ray from [fragPos] through its
    position, to [k] times its distance. *)
Definition move_point_light (fragPos : vec3) (k : R)
    (light : Shader.PointLight) : Shader.PointLight :=
  Shader.mkPointLight
    (v3add fragPos (v3scale (v3sub (Shader.pl_position light) fragPos) k))
    (Shader.pl_ambient light) (Shader.pl_diffuse light)
    (Shader.pl_specular light) (Shader.pl_bActive light).

(** The directional light [light] with its direction vector stretched by
    [k]. *)
Definition stretch_direction (k : R) (light : Shader.DirectionalLight)
    : Shader.DirectionalLight :=
  Shader.mkDirectionalLight (v3scale (Shader.dl_direction light) k)
    (Shader.dl_ambient light) (Shader.dl_diffuse light)
    (Shader.dl_specular light) (Shader.dl_bActive light).

(** Textures and uniforms of the examples: a white texture, a spot light at
    (0,0,1) that shines down the Z axis on the origin. *)
Definition white_texture (sampler : Z) (coord : vec2) : vec4 := mkVec4 1 1 1 1.

Definition spot_above (cutOff outerCutOff : R) : Shader.SpotLight :=
  Shader.mkSpotLight (mkVec3 0 0 1) (mkVec3 0 0 (-1)) cutOff outerCutOff
    1 0 0 (mkVec3 0 0 0) (mkVec3 1 1 1) (mkVec3 1 1 1) true.

Definition point_above : Shader.PointLight :=
  Shader.mkPointLight (mkVec3 0 0 1) (mkVec3 0 0 0) (mkVec3 1 1 1)
    (mkVec3 1 1 1) true.

Definition unlit_uniforms : Shader.Uniforms :=
  Shader.mkUniforms false false (mkVec4 1 0 0 1) (mkVec3 0 0 5)
    (Shader.mkDirectionalLight (mkVec3 0 0 (-1)) (mkVec3 0 0 0)
       (mkVec3 1 1 1) (mkVec3 0 0 0) true)
    (fun _ => point_above) (spot_above (3/4) (1/2))
    (Shader.mkMaterial (mkVec3 1 1 1) (mkVec3 1 1 1) 1) 0 (mkVec2 1 1).

(** Lighting switched on, with no light active. *)
Definition point_off : Shader.PointLight :=
  Shader.mkPointLight (mkVec3 0 0 1) (mkVec3 1 1 1) (mkVec3 1 1 1)
    (mkVec3 1 1 1) false.

Definition spot_off : Shader.SpotLight :=
  Shader.mkSpotLight (mkVec3 0 0 1) (mkVec3 0 0 (-1)) (3/4) (1/2)
    1 0 0 (mkVec3 1 1 1) (mkVec3 1 1 1) (mkVec3 1 1 1) false.

Definition dark_uniforms : Shader.Uniforms :=
  Shader.mkUniforms false true (mkVec4 1 0 0 1) (mkVec3 0 0 5)
    (Shader.mkDirectionalLight (mkVec3 0 0 (-1)) (mkVec3 1 1 1)
       (mkVec3 1 1 1) (mkVec3 1 1 1) false)
    (fun _ => point_off) spot_off
    (Shader.mkMaterial (mkVec3 1 1 1) (mkVec3 1 1 1) 1) 0 (mkVec2 1 1).

(** Lighting switched on, with a white directional light down the Z axis
    that has neither ambient nor specular part. *)
Definition sun : Shader.DirectionalLight :=
  Shader.mkDirectionalLight (mkVec3 0 0 (-1)) (mkVec3 0 0 0) (mkVec3 1 1 1)
    (mkVec3 0 0 0) true.

Definition sun_uniforms : Shader.Uniforms :=
  Shader.mkUniforms false true (mkVec4 1 1 1 1) (mkVec3 0 0 5) sun
    (fun _ => point_off) spot_off
    (Shader.mkMaterial (mkVec3 1 1 1) (mkVec3 1 1 1) 1) 0 (mkVec2 1 1).

Definition origin_fragment : Shader.Fragment :=
  Shader.mkFragment (mkVec3 0 0 0) (mkVec3 0 0 1) (mkVec2 0 0).

(** ** Concrete instances, used in the examples *)

(** An allocator of texture names: one more than every name in use. *)
Definition next_name (used : list GLuint) : GLuint :=
  1 + fold_right Z.max 0 used.

(** Decoders: every file is a 2x2 image with [channels] channels, or no file
    can be read. *)
Definition decode_as (channels : Z) (filename : string) : option Image :=
  Some (mkImage 2 2 channels).
Definition decode_fails (filename : string) : option Image := None.

Definition empty_world : World := mkWorld [] [] 0 [].

(** A scene manager right after construction: no texture, no material. *)
Definition fresh_scene : SceneManager :=
  mkScene (Some ∅) (replicate 16 (mkTexture "" 0)) 0 [] empty_world.

(** The scene manager after one load of the tag "leaves". *)
Definition leaves_scene : SceneManager :=
  match CreateGLTexture next_name (decode_as 3) "textures/leaves3.jpg" "leaves"
          fresh_scene with
  | Some (_, s) => s
  | None => fresh_scene
  end.

(** [DefineObjectMaterials]: the three materials of the scene are pushed
    onto the catalog. *)
Definition woodMaterial : OBJECT_MATERIAL :=
  mkMaterial "wood" (mkVec3 (2/10) (2/10) (3/10)) (mkVec3 0 0 0) (1/10).
Definition greeneryMaterial : OBJECT_MATERIAL :=
  mkMaterial "greenery" (mkVec3 (8/10) (8/10) (9/10))
    (mkVec3 (2/10) (2/10) (2/10)) (125/100).
Definition skyMaterial : OBJECT_MATERIAL :=
  mkMaterial "sky" (mkVec3 1 1 1) (mkVec3 (1/10) (1/10) (1/10)) (15/10).

Definition DefineObjectMaterials (s : SceneManager) : SceneManager :=
  mkScene (m_pShaderManager s) (m_textureIDs s) (m_loadedTextures s)
    (m_objectMaterials s ++ [woodMaterial; greeneryMaterial; skyMaterial])
    (world s).

(** The scene manager with the scene's materials defined. *)
Definition materials_scene : SceneManager := DefineObjectMaterials fresh_scene.

(** Some content of an uninitialised [OBJECT_MATERIAL]. *)
Definition stale_material : OBJECT_MATERIAL :=
  mkMaterial "" (mkVec3 7 7 7) (mkVec3 9 9 9) 42.

(** A registry with all 16 slots taken. *)
Definition full_scene : SceneManager :=
  mkScene (Some ∅) (map (fun i => mkTexture "t" (Z.of_nat (S i))) (seq 0 16))
    16 [] (mkWorld (map (fun i => Z.of_nat (S i)) (seq 0 16)) [] 0 []).

(** A scene manager without a shader manager, with one material. *)
Definition detached_scene : SceneManager :=
  mkScene None (replicate 16 (mkTexture "" 0)) 0 [woodMaterial] empty_world.

(** ** Properties of the texture registry *)

Lemma int_of_GLuint_small (u : GLuint) :
  0 <= u < 2 ^ 31 -> int_of_GLuint u = u.
Proof.
  intros H. unfold int_of_GLuint.
  destruct (Z.ltb_spec u (2 ^ 31)); lia.
Qed.

Lemma texture_at_nat (s : SceneManager) (j : nat) :
  texture_at s (Z.of_nat j) = m_textureIDs s !! j.
Proof.
  unfold texture_at.
  destruct (Z.ltb_spec (Z.of_nat j) 0); [lia|].
  by rewrite Nat2Z.id.
Qed.

Lemma entries_lookup (s : SceneManager) (j : nat) (e : TEXTURE_INFO) :
  entries s !! j = Some e <->
  (Z.of_nat j < m_loadedTextures s /\ m_textureIDs s !! j = Some e).
Proof.
  unfold entries. rewrite lookup_take_Some. split; intros [H1 H2]; split; auto; lia.
Qed.

Lemma find_texture_loop_none (s : SceneManager) (tag : string)
    (pick : Z -> TEXTURE_INFO -> Z) (steps index : nat) :
  (index + steps <= length (m_textureIDs s))%nat ->
  (forall j e, (index <= j < index + steps)%nat ->
     m_textureIDs s !! j = Some e -> tex_tag e <> tag) ->
  find_texture_loop s tag pick steps (Z.of_nat index) = Some (-1).
Proof.
  revert index. induction steps as [|k IH]; intros index Hlen Hno; [done|].
  simpl. rewrite texture_at_nat.
  destruct (lookup_lt_is_Some_2 (m_textureIDs s) index) as [e He]; [lia|].
  rewrite He. simpl.
  destruct (String.eqb_spec (tex_tag e) tag) as [Heq|Hne].
  - exfalso. apply (Hno index e); [lia | done | done].
  - replace (Z.of_nat index + 1) with (Z.of_nat (S index)) by lia.
    apply IH; [lia|]. intros j e' Hj. apply Hno. lia.
Qed.

Lemma find_texture_loop_first (s : SceneManager) (tag : string)
    (pick : Z -> TEXTURE_INFO -> Z) (steps index i : nat) (e : TEXTURE_INFO) :
  (index <= i < index + steps)%nat ->
  m_textureIDs s !! i = Some e ->
  tex_tag e = tag ->
  (forall j e', (index <= j < i)%nat ->
     m_textureIDs s !! j = Some e' -> tex_tag e' <> tag) ->
  find_texture_loop s tag pick steps (Z.of_nat index)
  = Some (pick (Z.of_nat i) e).
Proof.
  revert index. induction steps as [|k IH]; intros index Hi He Htag Hbefore; [lia|].
  simpl. rewrite texture_at_nat.
  destruct (decide (index = i)) as [->|Hne].
  - rewrite He. simpl. rewrite <- Htag, String.eqb_refl. done.
  - destruct (lookup_lt_is_Some_2 (m_textureIDs s) index) as [e0 He0].
    { apply lookup_lt_Some in He. lia. }
    rewrite He0. simpl.
    destruct (String.eqb_spec (tex_tag e0) tag) as [Heq|Hneq].
    + exfalso. apply (Hbefore index e0); [lia | done | done].
    + replace (Z.of_nat index + 1) with (Z.of_nat (S index)) by lia.
      apply IH; [lia | done | done |].
      intros j e' Hj. apply Hbefore. lia.
Qed.

Lemma find_texture_no_match (s : SceneManager) (tag : string)
    (pick : Z -> TEXTURE_INFO -> Z) :
  registry_ok s ->
  no_match tag (entries s) ->
  find_texture_loop s tag pick (Z.to_nat (m_loadedTextures s)) 0 = Some (-1).
Proof.
  intros [Hlen Hn] Hno.
  apply (find_texture_loop_none s tag pick _ 0%nat); [lia|].
  intros j e Hj He. apply (Hno j e). apply entries_lookup. split; [lia | done].
Qed.

Lemma find_texture_first_match (s : SceneManager) (tag : string)
    (pick : Z -> TEXTURE_INFO -> Z) (i : nat) (e : TEXTURE_INFO) :
  first_match tag (entries s) i e ->
  find_texture_loop s tag pick (Z.to_nat (m_loadedTextures s)) 0
  = Some (pick (Z.of_nat i) e).
Proof.
  intros (He & Htag & Hbefore).
  apply entries_lookup in He as [Hi He].
  apply (find_texture_loop_first s tag pick _ 0%nat); [lia | done | done |].
  intros j e' Hj He'. apply (Hbefore j e'); [lia|].
  apply entries_lookup. split; [lia | done].
Qed.

Lemma first_match_or_none (tag : string) (l : list TEXTURE_INFO) :
  no_match tag l \/ exists i e, first_match tag l i e.
Proof.
  induction l as [|x l IH].
  - left. intros j e H. by destruct j.
  - destruct (decide (tex_tag x = tag)) as [Hx|Hx].
    + right. exists 0%nat, x. repeat split; [done|]. intros j e' Hj. lia.
    + destruct IH as [Hno | (i & e & He & Htag & Hbefore)].
      * left. intros [|j] e H; simpl in H; [by simplify_eq | by apply (Hno j)].
      * right. exists (S i), e. repeat split; [done | done |].
        intros [|j] e' Hj H; simpl in H; [by simplify_eq|].
        apply (Hbefore j); [lia | done].
Qed.

Lemma first_match_app (tag : string) (l k : list TEXTURE_INFO)
    (i : nat) (e : TEXTURE_INFO) :
  first_match tag l i e -> first_match tag (l ++ k) i e.
Proof.
  intros (He & Htag & Hbefore). repeat split; [|done|].
  - by apply lookup_app_l_Some.
  - intros j e' Hj H. apply (Hbefore j e' Hj).
    rewrite lookup_app_l in H; [done|].
    apply lookup_lt_Some in He. lia.
Qed.

Section TextureRegistryFacts.

Variable gen_name : list GLuint -> GLuint.
Variable stbi_load : string -> option Image.

Lemma length_gen_names (k : nat) (used : list GLuint) :
  length (gen_names gen_name k used) = k.
Proof. revert used. induction k; intros; simpl; auto. Qed.

Lemma gen_names_fresh (k : nat) (used : list GLuint) :
  (forall l, gen_name l ∉ l) ->
  NoDup (gen_names gen_name k used) /\
  forall x, x ∈ gen_names gen_name k used -> x ∉ used.
Proof.
  intros Hfresh. revert used. induction k as [|k IH]; intros used; simpl.
  - split; [constructor | intros x Hx; inversion Hx].
  - destruct (IH (gen_name used :: used)) as [Hnd Hnot]. split.
    + constructor; [|done]. intros Hin. apply (Hnot _ Hin). left.
    + intros x Hx. apply elem_of_cons in Hx as [->|Hx]; [apply Hfresh|].
      intros Hused. apply (Hnot _ Hx). by right.
Qed.

(** A successful load appends one entry, whatever tags are present. *)
Lemma CreateGLTexture_success (filename tag : string) (image : Image)
    (s : SceneManager) :
  registry_ok s ->
  m_loadedTextures s < MAX_TEXTURES ->
  stbi_load filename = Some image ->
  img_channels image = 3 \/ img_channels image = 4 ->
  exists s',
    CreateGLTexture gen_name stbi_load filename tag s = Some (true, s') /\
    registry_ok s' /\
    m_loadedTextures s' = m_loadedTextures s + 1 /\
    entries s' =
      entries s ++ [mkTexture tag (gen_name (gl_names (world s)))].
Proof.
  intros [Hlen Hn] Hroom Hload Hch.
  unfold CreateGLTexture. rewrite Hload. simpl.
  assert (Hat : exists e0, texture_at s (m_loadedTextures s) = Some e0).
  { unfold texture_at. destruct (Z.ltb_spec (m_loadedTextures s) 0); [lia|].
    apply lookup_lt_is_Some_2. lia. }
  destruct Hat as [e0 Hat].
  rewrite Hat.
  destruct Hch as [Hc | Hc]; rewrite Hc; simpl;
    (eexists; split; [reflexivity|]; split; [|split]);
    try reflexivity;
    try (split; simpl; [rewrite length_insert|]; lia);
    (unfold entries; simpl;
     replace (Z.to_nat (m_loadedTextures s + 1))
       with (S (Z.to_nat (m_loadedTextures s))) by lia;
     erewrite take_S_r; [|apply list_lookup_insert_eq; lia];
     rewrite take_insert_ge; [done | lia]).
Qed.

(** Either failure leaves the array, the count and the materials as they
    were. *)
Lemma CreateGLTexture_failure (filename tag : string) (s s' : SceneManager) :
  CreateGLTexture gen_name stbi_load filename tag s = Some (false, s') ->
  m_textureIDs s' = m_textureIDs s /\
  m_loadedTextures s' = m_loadedTextures s /\
  m_objectMaterials s' = m_objectMaterials s /\
  (stbi_load filename = None \/
   exists image, stbi_load filename = Some image /\
     img_channels image <> 3 /\ img_channels image <> 4).
Proof.
  unfold CreateGLTexture.
  destruct (stbi_load filename) as [image|] eqn:Hload.
  - simpl.
    destruct (Z.eqb_spec (img_channels image) 3) as [H3|H3].
    { destruct (texture_at s (m_loadedTextures s)); discriminate. }
    destruct (Z.eqb_spec (img_channels image) 4) as [H4|H4].
    { destruct (texture_at s (m_loadedTextures s)); discriminate. }
    intros [= <-]. simpl. repeat split. right. eauto.
  - intros [= <-]. simpl. repeat split. by left.
Qed.

End TextureRegistryFacts.

Section DestroyFacts.

Variable gen_name : list GLuint -> GLuint.

Lemma DestroyGLTextures_body_step (index : nat) (s : SceneManager)
    (e : TEXTURE_INFO) :
  m_textureIDs s !! index = Some e ->
  DestroyGLTextures_body gen_name (Z.of_nat index) s =
  Some (with_world (snd (gen_texture gen_name (world s)))
          (set_texture_at (Z.of_nat index)
             (mkTexture (tex_tag e) (gen_name (gl_names (world s)))) s)).
Proof.
  intros He. unfold DestroyGLTextures_body.
  rewrite texture_at_nat, He. reflexivity.
Qed.

(** The loop of [DestroyGLTextures], from any start index. *)
Lemma DestroyGLTextures_loop (steps index : nat) (s : SceneManager) :
  (index + steps <= length (m_textureIDs s))%nat ->
  exists s',
    for_loop steps (Z.of_nat index) (DestroyGLTextures_body gen_name) s
      = Some s' /\
    m_loadedTextures s' = m_loadedTextures s /\
    m_objectMaterials s' = m_objectMaterials s /\
    m_pShaderManager s' = m_pShaderManager s /\
    length (m_textureIDs s') = length (m_textureIDs s) /\
    gl_names (world s')
      = rev (gen_names gen_name steps (gl_names (world s)))
          ++ gl_names (world s) /\
    gl_calls (world s')
      = rev (map glGenTextures (gen_names gen_name steps (gl_names (world s))))
          ++ gl_calls (world s) /\
    stb_live (world s') = stb_live (world s) /\
    console (world s') = console (world s) /\
    forall j e, m_textureIDs s !! j = Some e ->
      m_textureIDs s' !! j =
        Some (if decide (index <= j < index + steps)%nat
              then mkTexture (tex_tag e)
                     (nth (j - index)
                        (gen_names gen_name steps (gl_names (world s))) 0)
              else e).
Proof.
  revert index s. induction steps as [|k IH]; intros index s Hlen.
  - exists s. simpl. repeat split; try done.
    intros j e He. rewrite decide_False; [done | lia].
  - cbn [for_loop].
    destruct (lookup_lt_is_Some_2 (m_textureIDs s) index) as [e0 He0]; [lia|].
    rewrite (DestroyGLTextures_body_step index s e0 He0).
    cbn [mbind option_bind].
    set (name0 := gen_name (gl_names (world s))).
    set (s1 := with_world _ _).
    replace (Z.of_nat index + 1) with (Z.of_nat (S index)) by lia.
    assert (Hlen1 : length (m_textureIDs s1) = length (m_textureIDs s)).
    { subst s1. simpl. by rewrite length_insert. }
    destruct (IH (S index) s1) as
      (s' & Hrun & Hcount & Hmat & Hsh & Hlen' & Hnames & Hcalls & Hstb
          & Hcon & Hpt); [lia|].
    exists s'. split; [exact Hrun|].
    split; [by rewrite Hcount|]. split; [by rewrite Hmat|].
    split; [by rewrite Hsh|]. split; [by rewrite Hlen'|].
    split; [rewrite Hnames; simpl; by rewrite <- app_assoc|].
    split; [rewrite Hcalls; simpl; by rewrite <- app_assoc|].
    split; [by rewrite Hstb|]. split; [by rewrite Hcon|].
    intros j e He.
    assert (He1 : m_textureIDs s1 !! j =
                  Some (if decide (j = index)
                        then mkTexture (tex_tag e0) name0 else e)).
    { subst s1. simpl. rewrite Nat2Z.id.
      destruct (decide (j = index)) as [->|Hne].
      - apply list_lookup_insert_eq. lia.
      - by rewrite list_lookup_insert_ne. }
    rewrite (Hpt j _ He1). f_equal.
    change (gl_names (world s1)) with (name0 :: gl_names (world s)).
    destruct (decide (j = index)) as [->|Hne].
    + rewrite decide_False by lia. rewrite decide_True by lia.
      rewrite Nat.sub_diag. simpl.
      rewrite He0 in He. injection He as <-. reflexivity.
    + destruct (decide (S index <= j < S index + k)%nat) as [Hin|Hout].
      * rewrite decide_True by lia.
        replace (j - index)%nat with (S (j - S index)) by lia. done.
      * rewrite decide_False by lia. done.
Qed.

End DestroyFacts.

Lemma next_name_fresh (used : list GLuint) : next_name used ∉ used.
Proof.
  assert (H : forall x, x ∈ used -> x <= fold_right Z.max 0 used).
  { induction used as [|y l IH]; intros x Hx; [inversion Hx|].
    apply elem_of_cons in Hx as [->|Hx]; simpl; [lia|].
    specialize (IH x Hx). lia. }
  intros Hin. apply H in Hin. unfold next_name in Hin. lia.
Qed.

(** ** Texture lookup *)

(** C8. [FindTextureSlot] and [FindTextureID] scan the registered entries in
    registration order.  They return the index, respectively the handle
    (converted to [int]; the handle itself when it is below [2^31]), of the
    first entry whose tag matches, and [-1] when the registry is empty or the
    tag is absent.  A load with a tag that is
    already registered appends a further entry, and the lookups still answer
    with the entry registered first. *)
Theorem texture_lookup_first_match
    (gen_name : list GLuint -> GLuint) (stbi_load : string -> option Image)
    (tag : string) (s : SceneManager) :
  registry_ok s ->
  (no_match tag (entries s) \/ exists i e, first_match tag (entries s) i e) /\
  (m_loadedTextures s = 0 ->
     FindTextureSlot tag s = Some (-1) /\ FindTextureID tag s = Some (-1)) /\
  (no_match tag (entries s) ->
     FindTextureSlot tag s = Some (-1) /\ FindTextureID tag s = Some (-1)) /\
  (forall i e, first_match tag (entries s) i e ->
     FindTextureSlot tag s = Some (Z.of_nat i) /\
     FindTextureID tag s = Some (int_of_GLuint (tex_ID e)) /\
     (0 <= tex_ID e < 2 ^ 31 -> FindTextureID tag s = Some (tex_ID e))) /\
  (forall filename image i e,
     stbi_load filename = Some image ->
     img_channels image = 3 \/ img_channels image = 4 ->
     m_loadedTextures s < MAX_TEXTURES ->
     first_match tag (entries s) i e ->
     exists s',
       CreateGLTexture gen_name stbi_load filename tag s = Some (true, s') /\
       entries s' =
         entries s ++ [mkTexture tag (gen_name (gl_names (world s)))] /\
       FindTextureSlot tag s' = Some (Z.of_nat i) /\
       FindTextureID tag s' = Some (int_of_GLuint (tex_ID e))).
Proof.
  intros Hok.
  assert (Hnone : no_match tag (entries s) ->
            FindTextureSlot tag s = Some (-1) /\ FindTextureID tag s = Some (-1)).
  { intros Hno. split; apply find_texture_no_match; done. }
  split; [apply first_match_or_none|].
  split.
  { intros H0. apply Hnone. intros j e He.
    apply entries_lookup in He as [Hj _]. lia. }
  split; [exact Hnone|].
  split.
  { intros i e Hfm.
    assert (Hid : FindTextureID tag s = Some (int_of_GLuint (tex_ID e))).
    { apply (find_texture_first_match s tag
               (fun _ e => int_of_GLuint (tex_ID e)) i e Hfm). }
    split; [|split; [exact Hid|]].
    - apply (find_texture_first_match s tag (fun index _ => index) i e Hfm).
    - intros Hsmall. by rewrite Hid, int_of_GLuint_small. }
  intros filename image i e Hload Hch Hroom Hfm.
  destruct (CreateGLTexture_success gen_name stbi_load filename tag image s
              Hok Hroom Hload Hch) as (s' & Hrun & Hok' & Hcount & Hent).
  exists s'. split; [exact Hrun|]. split; [exact Hent|].
  assert (Hfm' : first_match tag (entries s') i e).
  { rewrite Hent. by apply first_match_app. }
  split.
  - apply (find_texture_first_match s' tag (fun index _ => index) i e Hfm').
  - apply (find_texture_first_match s' tag
             (fun _ e => int_of_GLuint (tex_ID e)) i e Hfm').
Qed.

Lemma leaves_scene_ok : registry_ok leaves_scene.
Proof. split; [reflexivity | vm_compute; split; discriminate]. Defined.

Lemma leaves_scene_first :
  first_match "leaves" (entries leaves_scene) 0 (mkTexture "leaves" 1).
Proof.
  split; [reflexivity|]. split; [reflexivity|]. intros j e' Hj. lia.
Defined.

(** Two loads under the tag "leaves": both entries stay, the lookups give
    slot 0 and the handle of the first load. *)
Lemma texture_lookup_first_match_witness :
  registry_ok leaves_scene /\
  exists s',
    CreateGLTexture next_name (decode_as 3) "textures/leaves.jpg" "leaves"
      leaves_scene = Some (true, s') /\
    entries s' = [mkTexture "leaves" 1; mkTexture "leaves" 2] /\
    FindTextureSlot "leaves" s' = Some 0 /\
    FindTextureID "leaves" s' = Some 1.
Proof.
  split; [exact leaves_scene_ok|].
  destruct (texture_lookup_first_match next_name (decode_as 3) "leaves"
              leaves_scene leaves_scene_ok) as (_ & _ & _ & _ & Hdup).
  destruct (Hdup "textures/leaves.jpg" (mkImage 2 2 3) 0%nat
              (mkTexture "leaves" 1))
    as (s' & Hrun & Hent & Hslot & Hid).
  - reflexivity.
  - left. reflexivity.
  - vm_compute. reflexivity.
  - exact leaves_scene_first.
  - exists s'. repeat split; assumption.
Defined.

(** The four textures of the scene take the slots 0 to 3 in the order of
    their registration, and the handles 1 to 4 of the allocator. *)
Example LoadSceneTextures_slots :
  exists s,
    LoadSceneTextures next_name (decode_as 3) fresh_scene = Some s /\
    entries s = [mkTexture "leaves" 1; mkTexture "pineleaves" 2;
                 mkTexture "log" 3; mkTexture "stone" 4] /\
    FindTextureSlot "leaves" s = Some 0 /\
    FindTextureSlot "stone" s = Some 3 /\
    FindTextureID "stone" s = Some 4 /\
    FindTextureSlot "metal" s = Some (-1) /\
    FindTextureID "metal" s = Some (-1).
Proof. eexists. split. { vm_compute. reflexivity. } repeat split. Qed.

(** A decoder that reads nothing leaves the registry empty. *)
Example LoadSceneTextures_unreadable :
  exists s,
    LoadSceneTextures next_name decode_fails fresh_scene = Some s /\
    entries s = [] /\ gl_names (world s) = [] /\
    FindTextureSlot "stone" s = Some (-1).
Proof. eexists. split. { vm_compute. reflexivity. } repeat split. Qed.

(** ** Teardown *)

(** C10. [DestroyGLTextures] deletes no texture: the only calls it issues are
    [glGenTextures], one for each registered entry, and every texture name in
    use before is in use after.  Each registered entry keeps its tag and has
    its handle overwritten by the name generated for it; the names are new
    when the context hands out unused names.  The count of registered entries
    and all tags are unchanged. *)
Theorem DestroyGLTextures_generates_names
    (gen_name : list GLuint -> GLuint) (s : SceneManager) :
  registry_ok s ->
  exists s',
    DestroyGLTextures gen_name s = Some s' /\
    let new :=
      gen_names gen_name (Z.to_nat (m_loadedTextures s))
        (gl_names (world s)) in
    gl_names (world s') = rev new ++ gl_names (world s) /\
    gl_calls (world s') = rev (map glGenTextures new) ++ gl_calls (world s) /\
    length new = Z.to_nat (m_loadedTextures s) /\
    (forall j e, entries s !! j = Some e ->
       exists name, new !! j = Some name /\
         entries s' !! j = Some (mkTexture (tex_tag e) name)) /\
    m_loadedTextures s' = m_loadedTextures s /\
    map tex_tag (m_textureIDs s') = map tex_tag (m_textureIDs s) /\
    ((forall l, gen_name l ∉ l) ->
       NoDup new /\ forall x, x ∈ new -> x ∉ gl_names (world s)).
Proof.
  intros [Hlen Hn].
  destruct (DestroyGLTextures_loop gen_name (Z.to_nat (m_loadedTextures s))
              0%nat s) as
    (s' & Hrun & Hcount & _ & _ & Hlen' & Hnames & Hcalls & _ & _ & Hpt);
    [lia|].
  exists s'. split; [exact Hrun|]. cbv zeta.
  set (new := gen_names gen_name _ _) in *.
  assert (Hnew : length new = Z.to_nat (m_loadedTextures s))
    by apply length_gen_names.
  split; [exact Hnames|]. split; [exact Hcalls|]. split; [exact Hnew|].
  split.
  { intros j e He. apply entries_lookup in He as [Hj He].
    destruct (lookup_lt_is_Some_2 new j) as [name Hname]; [lia|].
    exists name. split; [exact Hname|].
    apply entries_lookup. split; [lia|].
    rewrite (Hpt j e He). rewrite decide_True by lia.
    rewrite Nat.sub_0_r, nth_lookup, Hname. reflexivity. }
  split; [exact Hcount|].
  split.
  { apply list_eq. intros j. rewrite !list_lookup_fmap.
    destruct (m_textureIDs s !! j) as [e|] eqn:He.
    - rewrite (Hpt j e He). simpl. by destruct (decide _).
    - apply lookup_ge_None in He.
      rewrite (lookup_ge_None_2 (m_textureIDs s') j); [done | lia]. }
  intros Hfresh. apply gen_names_fresh. exact Hfresh.
Qed.

(** The scene with one entry "leaves" of handle 1: the teardown issues one
    [glGenTextures], keeps name 1 in use and stores the new name 2. *)
Lemma DestroyGLTextures_generates_names_witness :
  registry_ok leaves_scene /\
  exists s',
    DestroyGLTextures next_name leaves_scene = Some s' /\
    gl_names (world s') = [2; 1] /\
    (forall x : GLuint, x ∈ [2] -> x ∉ [1]) /\
    entries s' = [mkTexture "leaves" 2] /\
    m_loadedTextures s' = 1.
Proof.
  split; [exact leaves_scene_ok|].
  destruct (DestroyGLTextures_generates_names next_name leaves_scene
              leaves_scene_ok)
    as (s' & Hrun & Hnames & _ & _ & _ & Hcount & _ & Hfresh).
  destruct (Hfresh next_name_fresh) as [_ Hnot].
  exists s'. split; [exact Hrun|]. split; [exact Hnames|].
  split; [exact Hnot|].
  vm_compute in Hrun. injection Hrun as <-.
  split; reflexivity.
Defined.

(** ** Texture load *)

(** When the decoder fails, the load reports failure and touches neither the
    registry nor the context. *)
Lemma CreateGLTexture_decode_failure
    (gen_name : list GLuint -> GLuint) (stbi_load : string -> option Image)
    (filename tag : string) (s : SceneManager) :
  stbi_load filename = None ->
  exists s',
    CreateGLTexture gen_name stbi_load filename tag s = Some (false, s') /\
    m_textureIDs s' = m_textureIDs s /\
    m_loadedTextures s' = m_loadedTextures s /\
    gl_names (world s') = gl_names (world s) /\
    gl_calls (world s') = gl_calls (world s).
Proof.
  intros Hload. unfold CreateGLTexture. rewrite Hload.
  eexists. split; [reflexivity|]. repeat split.
Qed.

(** When the decoder succeeds with a channel count other than 3 and 4, the
    load reports failure and leaves the registry alone, but the texture name
    generated before the test of the channel count stays in use, and the
    decoder's buffer is not freed. *)
Lemma CreateGLTexture_unsupported_channels
    (gen_name : list GLuint -> GLuint) (stbi_load : string -> option Image)
    (filename tag : string) (image : Image) (s : SceneManager) :
  stbi_load filename = Some image ->
  img_channels image <> 3 -> img_channels image <> 4 ->
  exists s',
    CreateGLTexture gen_name stbi_load filename tag s = Some (false, s') /\
    m_textureIDs s' = m_textureIDs s /\
    m_loadedTextures s' = m_loadedTextures s /\
    gl_names (world s')
      = gen_name (gl_names (world s)) :: gl_names (world s) /\
    glGenTextures (gen_name (gl_names (world s))) ∈ gl_calls (world s') /\
    glBindTexture (gen_name (gl_names (world s))) ∈ gl_calls (world s') /\
    stb_live (world s') = S (stb_live (world s)).
Proof.
  intros Hload H3 H4. unfold CreateGLTexture. rewrite Hload. simpl.
  destruct (Z.eqb_spec (img_channels image) 3) as [|_]; [done|].
  destruct (Z.eqb_spec (img_channels image) 4) as [|_]; [done|].
  eexists. split; [reflexivity|]. simpl.
  repeat split; try reflexivity; set_solver.
Qed.

(** C3, at a one-channel (greyscale) image.  The load reports failure and the
    registry is unchanged, yet one texture name has been generated and bound
    and is still in use after the call. *)
Theorem CreateGLTexture_greyscale_leaves_texture :
  exists s',
    CreateGLTexture next_name (decode_as 1) "textures/grey.jpg" "grey"
      fresh_scene = Some (false, s') /\
    m_textureIDs s' = m_textureIDs fresh_scene /\
    m_loadedTextures s' = m_loadedTextures fresh_scene /\
    gl_names (world fresh_scene) = [] /\
    gl_names (world s') = [1] /\
    gl_calls (world s') =
      [glTexParameteri MAG_FILTER_LINEAR; glTexParameteri MIN_FILTER_LINEAR;
       glTexParameteri WRAP_T_REPEAT; glTexParameteri WRAP_S_REPEAT;
       glBindTexture 1; glGenTextures 1].
Proof.
  eexists. split; [reflexivity|]. repeat split.
Qed.

(** ** Material catalog *)

Lemma FindMaterial_empty (tag : string) (material : OBJECT_MATERIAL)
    (s : SceneManager) :
  m_objectMaterials s = [] -> FindMaterial tag material s = (false, material).
Proof. intros H. unfold FindMaterial. by rewrite H. Qed.

(** The scan stops at the first entry with the tag and copies its three
    appearance fields. *)
Lemma FindMaterial_scan_first (l : list OBJECT_MATERIAL) (tag : string)
    (material : OBJECT_MATERIAL) (i : nat) (m : OBJECT_MATERIAL) :
  l !! i = Some m -> mat_tag m = tag ->
  (forall j m', (j < i)%nat -> l !! j = Some m' -> mat_tag m' <> tag) ->
  FindMaterial_scan l tag material =
  mkMaterial (mat_tag material) (diffuseColor m) (specularColor m)
    (shininess m).
Proof.
  revert i. induction l as [|x l IH]; intros i Hi Htag Hbefore; [by destruct i|].
  simpl. destruct i as [|i]; simpl in Hi.
  - injection Hi as ->. by rewrite <- Htag, String.eqb_refl.
  - destruct (String.eqb_spec (mat_tag x) tag) as [Hx|Hx].
    + exfalso. apply (Hbefore 0%nat x); [lia | done | done].
    + apply (IH i); [done | done |].
      intros j m' Hj Hm'. apply (Hbefore (S j) m'); [lia | done].
Qed.

Lemma FindMaterial_scan_absent (l : list OBJECT_MATERIAL) (tag : string)
    (material : OBJECT_MATERIAL) :
  (forall m, m ∈ l -> mat_tag m <> tag) ->
  FindMaterial_scan l tag material = material.
Proof.
  induction l as [|x l IH]; intros Hno; [done|]. simpl.
  destruct (String.eqb_spec (mat_tag x) tag) as [Hx|Hx].
  - exfalso. apply (Hno x); [left | done].
  - apply IH. intros m Hm. apply Hno. by right.
Qed.

Lemma FindMaterial_found (tag : string) (material : OBJECT_MATERIAL)
    (s : SceneManager) (i : nat) (m : OBJECT_MATERIAL) :
  m_objectMaterials s !! i = Some m -> mat_tag m = tag ->
  (forall j m', (j < i)%nat -> m_objectMaterials s !! j = Some m' ->
     mat_tag m' <> tag) ->
  FindMaterial tag material s =
  (true, mkMaterial (mat_tag material) (diffuseColor m) (specularColor m)
           (shininess m)).
Proof.
  intros Hi Htag Hbefore. unfold FindMaterial.
  destruct (m_objectMaterials s) as [|x l] eqn:Hl; [by destruct i|].
  simpl length. simpl Nat.eqb. cbv iota.
  by rewrite (FindMaterial_scan_first _ tag material i m Hi Htag Hbefore).
Qed.

(** On a catalog that is not empty, a tag that no entry carries is answered
    with [true], and [material] is left as it was on entry. *)
Lemma FindMaterial_absent (tag : string) (material : OBJECT_MATERIAL)
    (s : SceneManager) :
  m_objectMaterials s <> [] ->
  (forall m, m ∈ m_objectMaterials s -> mat_tag m <> tag) ->
  FindMaterial tag material s = (true, material).
Proof.
  intros Hne Hno. unfold FindMaterial.
  destruct (m_objectMaterials s) as [|x l] eqn:Hl; [done|].
  simpl length. simpl Nat.eqb. cbv iota.
  by rewrite FindMaterial_scan_absent.
Qed.

(** C1, at the catalog of the scene (wood, greenery, sky) and the tag
    "stone", which no entry carries: [FindMaterial] answers [true], the
    found result, with [material] untouched. *)
Theorem FindMaterial_absent_tag_returns_true :
  (forall m, m ∈ m_objectMaterials materials_scene -> mat_tag m <> "stone") /\
  FindMaterial "stone" stale_material materials_scene = (true, stale_material).
Proof.
  split; [|reflexivity].
  intros m Hm. simpl in Hm.
  repeat (apply elem_of_cons in Hm as [->|Hm]; [discriminate|]).
  inversion Hm.
Qed.

(** ** Material upload *)

Lemma upload_material_lookup (material : OBJECT_MATERIAL) (sh : ShaderManager) :
  upload_material material sh !! "material.diffuseColor"
    = Some (UVec3 (diffuseColor material)) /\
  upload_material material sh !! "material.specularColor"
    = Some (UVec3 (specularColor material)) /\
  upload_material material sh !! "material.shininess"
    = Some (UFloat (shininess material)).
Proof.
  unfold upload_material, setUniform. repeat split.
  - rewrite lookup_insert_ne by discriminate.
    rewrite lookup_insert_ne by discriminate.
    apply lookup_insert_eq.
  - rewrite lookup_insert_ne by discriminate. apply lookup_insert_eq.
  - apply lookup_insert_eq.
Qed.

Lemma SetShaderMaterial_empty (garbage : OBJECT_MATERIAL) (tag : string)
    (s : SceneManager) :
  m_objectMaterials s = [] -> SetShaderMaterial garbage tag s = Some s.
Proof. intros H. unfold SetShaderMaterial. by rewrite H. Qed.

(** A tag of the catalog: the fields of its first entry are uploaded. *)
Lemma SetShaderMaterial_found (garbage : OBJECT_MATERIAL) (tag : string)
    (s : SceneManager) (sh : ShaderManager) (i : nat) (m : OBJECT_MATERIAL) :
  m_pShaderManager s = Some sh ->
  m_objectMaterials s !! i = Some m -> mat_tag m = tag ->
  (forall j m', (j < i)%nat -> m_objectMaterials s !! j = Some m' ->
     mat_tag m' <> tag) ->
  SetShaderMaterial garbage tag s
  = Some (with_shader (upload_material m sh) s).
Proof.
  intros Hsh Hi Htag Hbefore. unfold SetShaderMaterial.
  rewrite (FindMaterial_found tag garbage s i m Hi Htag Hbefore).
  apply lookup_lt_Some in Hi.
  destruct (Nat.ltb_spec 0 (length (m_objectMaterials s))); [|lia].
  rewrite Hsh. reflexivity.
Qed.

(** A tag that the non-empty catalog does not have: the three uniforms
    are written all the same, from the uninitialised local. *)
Lemma SetShaderMaterial_absent (garbage : OBJECT_MATERIAL) (tag : string)
    (s : SceneManager) (sh : ShaderManager) :
  m_pShaderManager s = Some sh ->
  m_objectMaterials s <> [] ->
  (forall m, m ∈ m_objectMaterials s -> mat_tag m <> tag) ->
  SetShaderMaterial garbage tag s
  = Some (with_shader (upload_material garbage sh) s).
Proof.
  intros Hsh Hne Hno. unfold SetShaderMaterial.
  rewrite (FindMaterial_absent tag garbage s Hne Hno).
  destruct (m_objectMaterials s) as [|x l]; [done|].
  simpl. rewrite Hsh. reflexivity.
Qed.

(** C2, at the catalog of the scene.  After the material "wood" is set, a
    call with the tag "stone", which the catalog does not have, overwrites
    the three material uniforms with the content of the uninitialised
    local. *)
Theorem SetShaderMaterial_absent_tag_overwrites :
  exists s1 sh1 s2 sh2,
    SetShaderMaterial stale_material "wood" materials_scene = Some s1 /\
    m_pShaderManager s1 = Some sh1 /\
    sh1 !! "material.diffuseColor" = Some (UVec3 (diffuseColor woodMaterial)) /\
    sh1 !! "material.specularColor" = Some (UVec3 (specularColor woodMaterial)) /\
    sh1 !! "material.shininess" = Some (UFloat (shininess woodMaterial)) /\
    (forall m, m ∈ m_objectMaterials s1 -> mat_tag m <> "stone") /\
    SetShaderMaterial stale_material "stone" s1 = Some s2 /\
    m_pShaderManager s2 = Some sh2 /\
    sh2 !! "material.diffuseColor" = Some (UVec3 (mkVec3 7 7 7)) /\
    sh2 !! "material.specularColor" = Some (UVec3 (mkVec3 9 9 9)) /\
    sh2 !! "material.shininess" = Some (UFloat 42).
Proof.
  assert (Hno : forall m, m ∈ m_objectMaterials materials_scene ->
                  mat_tag m <> "stone").
  { intros m Hm. simpl in Hm.
    repeat (apply elem_of_cons in Hm as [->|Hm]; [discriminate|]).
    inversion Hm. }
  pose proof (SetShaderMaterial_found stale_material "wood" materials_scene
                ∅ 0%nat woodMaterial) as H1.
  set (s1 := with_shader (upload_material woodMaterial ∅) materials_scene) in *.
  pose proof (SetShaderMaterial_absent stale_material "stone" s1
                (upload_material woodMaterial ∅)) as H2.
  destruct (upload_material_lookup woodMaterial ∅) as (Ha & Hb & Hc).
  destruct (upload_material_lookup stale_material
              (upload_material woodMaterial ∅)) as (Ha' & Hb' & Hc').
  exists s1, (upload_material woodMaterial ∅).
  eexists. eexists.
  split. { apply H1; try reflexivity. intros j m' Hj. lia. }
  split; [reflexivity|].
  split; [exact Ha|]. split; [exact Hb|]. split; [exact Hc|].
  split; [exact Hno|].
  split. { apply H2; [reflexivity | discriminate | exact Hno]. }
  split; [reflexivity|].
  split; [exact Ha'|]. split; [exact Hb'|]. exact Hc'.
Qed.

(** ** Model matrix *)

Ltac vec_eq :=
  lazymatch goal with
  | |- mkMat4 _ _ _ _ = mkMat4 _ _ _ _ => f_equal; vec_eq
  | |- mkVec4 _ _ _ _ = mkVec4 _ _ _ _ => f_equal; ring
  | |- mkVec3 _ _ _ = mkVec3 _ _ _ => f_equal; ring
  | |- _ => ring
  end.

Ltac mat_eq :=
  unfold glm.translate, glm.translate_mat, glm.scale, glm.scale_mat,
    glm.rotate, glm.rotate_mat, glm.mul, glm.mul_col, glm.mul_vec,
    glm.identity, v4add, v4scale, v3scale;
  cbn [v4x v4y v4z v4w v3x v3y v3z col0 col1 col2 col3]; vec_eq.

Section Textbook.
Local Open Scope R_scope.

Lemma normalize_unit (a : vec3) : dot a a = 1 -> normalize a = a.
Proof.
  intros H. unfold normalize. rewrite H, sqrt_1, Rinv_1.
  destruct a. unfold v3scale. simpl. vec_eq.
Qed.

Lemma translate_textbook (t : vec3) : glm.translate t = translation_matrix t.
Proof. unfold translation_matrix. mat_eq. Qed.

Lemma scale_textbook (k : vec3) : glm.scale k = scaling_matrix k.
Proof. unfold scaling_matrix. mat_eq. Qed.

Lemma rotate_x_textbook (a : R) :
  glm.rotate a (mkVec3 1 0 0) = rotation_x_matrix a.
Proof.
  unfold glm.rotate, glm.rotate_mat.
  rewrite normalize_unit by (unfold dot; simpl; ring).
  unfold rotation_x_matrix. mat_eq.
Qed.

Lemma rotate_y_textbook (a : R) :
  glm.rotate a (mkVec3 0 1 0) = rotation_y_matrix a.
Proof.
  unfold glm.rotate, glm.rotate_mat.
  rewrite normalize_unit by (unfold dot; simpl; ring).
  unfold rotation_y_matrix. mat_eq.
Qed.

Lemma rotate_z_textbook (a : R) :
  glm.rotate a (mkVec3 0 0 1) = rotation_z_matrix a.
Proof.
  unfold glm.rotate, glm.rotate_mat.
  rewrite normalize_unit by (unfold dot; simpl; ring).
  unfold rotation_z_matrix. mat_eq.
Qed.

Lemma mul_col_vec (a : mat4) (b : vec4) : glm.mul_col a b = glm.mul_vec a b.
Proof. destruct a as [[] [] [] []], b. mat_eq. Qed.

(** [m * v] is linear in [v]. *)
Lemma mul_vec_add (a : mat4) (x y : vec4) :
  glm.mul_vec a (v4add x y) = v4add (glm.mul_vec a x) (glm.mul_vec a y).
Proof. destruct a as [[] [] [] []], x, y. mat_eq. Qed.

Lemma mul_vec_scale (a : mat4) (x : vec4) (k : R) :
  glm.mul_vec a (v4scale x k) = v4scale (glm.mul_vec a x) k.
Proof. destruct a as [[] [] [] []], x. mat_eq. Qed.

(** Applying a product is applying its factors, the right one first. *)
Lemma mul_vec_mul (a b : mat4) (v : vec4) :
  glm.mul_vec (glm.mul a b) v = glm.mul_vec a (glm.mul_vec b v).
Proof.
  unfold glm.mul_vec at 1. unfold glm.mul. cbn [col0 col1 col2 col3].
  rewrite !mul_col_vec, <- !mul_vec_scale, <- !mul_vec_add.
  reflexivity.
Qed.

Lemma modelView_textbook (k : vec3) (rx ry rz : R) (t : vec3) :
  modelView k rx ry rz t =
  glm.mul (glm.mul (glm.mul (glm.mul (translation_matrix t)
                               (rotation_z_matrix (glm.radians rz)))
                      (rotation_y_matrix (glm.radians ry)))
             (rotation_x_matrix (glm.radians rx)))
    (scaling_matrix k).
Proof.
  unfold modelView.
  by rewrite translate_textbook, scale_textbook, rotate_x_textbook,
    rotate_y_textbook, rotate_z_textbook.
Qed.

(** [m * (0,0,0,1)] is the last column of [m]. *)
Lemma mul_vec_origin (m : mat4) : glm.mul_vec m (mkVec4 0 0 0 1) = col3 m.
Proof. destruct m as [[] [] [] []]. mat_eq. Qed.

(** Scale and rotations fix the origin; the translation moves it. *)
Lemma modelView_origin (k : vec3) (rx ry rz : R) (t : vec3) :
  glm.mul_vec (modelView k rx ry rz t) (mkVec4 0 0 0 1)
  = mkVec4 (v3x t) (v3y t) (v3z t) 1.
Proof.
  rewrite modelView_textbook, !mul_vec_mul.
  rewrite (mul_vec_origin (scaling_matrix k)). cbn [scaling_matrix col3].
  rewrite (mul_vec_origin (rotation_x_matrix _)). cbn [rotation_x_matrix col3].
  rewrite (mul_vec_origin (rotation_y_matrix _)). cbn [rotation_y_matrix col3].
  rewrite (mul_vec_origin (rotation_z_matrix _)). cbn [rotation_z_matrix col3].
  rewrite (mul_vec_origin (translation_matrix t)). reflexivity.
Qed.

Lemma SetTransformations_model (k : vec3) (rx ry rz : R) (t : vec3)
    (s : SceneManager) (sh : ShaderManager) :
  m_pShaderManager s = Some sh ->
  exists sh',
    m_pShaderManager (SetTransformations k rx ry rz t s) = Some sh' /\
    sh' !! "model" = Some (UMat4 (modelView k rx ry rz t)).
Proof.
  intros Hsh. unfold SetTransformations. rewrite Hsh.
  eexists. split; [reflexivity|]. apply lookup_insert_eq.
Qed.

End Textbook.

(** C4. [SetTransformations] uploads, as the uniform [model], the product
    [T * Rz * Ry * Rx * S] of the translation, the rotations about Z, Y and X
    by the angles given in degrees, and the scale.  Applied to a vector, the
    scale acts first, then the rotations about X, Y and Z, and the translation
    last. *)
Theorem SetTransformations_composition
    (scaleXYZ : vec3) (Xdeg Ydeg Zdeg : R) (positionXYZ : vec3)
    (s : SceneManager) (sh : ShaderManager) :
  m_pShaderManager s = Some sh ->
  let T := translation_matrix positionXYZ in
  let Rz := rotation_z_matrix (glm.radians Zdeg) in
  let Ry := rotation_y_matrix (glm.radians Ydeg) in
  let Rx := rotation_x_matrix (glm.radians Xdeg) in
  let S := scaling_matrix scaleXYZ in
  exists sh' model,
    m_pShaderManager
      (SetTransformations scaleXYZ Xdeg Ydeg Zdeg positionXYZ s) = Some sh' /\
    sh' !! "model" = Some (UMat4 model) /\
    model = glm.mul (glm.mul (glm.mul (glm.mul T Rz) Ry) Rx) S /\
    forall v,
      glm.mul_vec model v =
      glm.mul_vec T (glm.mul_vec Rz (glm.mul_vec Ry (glm.mul_vec Rx
        (glm.mul_vec S v)))).
Proof.
  intros Hsh T Rz Ry Rx S.
  destruct (SetTransformations_model scaleXYZ Xdeg Ydeg Zdeg positionXYZ s sh
              Hsh) as (sh' & Hrun & Hmodel).
  exists sh', (modelView scaleXYZ Xdeg Ydeg Zdeg positionXYZ).
  split; [exact Hrun|]. split; [exact Hmodel|].
  split; [apply modelView_textbook|].
  intros v. rewrite modelView_textbook.
  by rewrite !mul_vec_mul.
Qed.

(** On the freshly constructed scene manager: scale (2,3,4), 90 degrees
    about Y, position (5,6,7). *)
Lemma SetTransformations_composition_witness :
  m_pShaderManager fresh_scene = Some ∅ /\
  exists sh' model,
    m_pShaderManager
      (SetTransformations (mkVec3 2 3 4) 0 90 0 (mkVec3 5 6 7) fresh_scene)
      = Some sh' /\
    sh' !! "model" = Some (UMat4 model) /\
    model =
      glm.mul (glm.mul (glm.mul (glm.mul
        (translation_matrix (mkVec3 5 6 7))
        (rotation_z_matrix (glm.radians 0)))
        (rotation_y_matrix (glm.radians 90)))
        (rotation_x_matrix (glm.radians 0)))
        (scaling_matrix (mkVec3 2 3 4)).
Proof.
  split; [reflexivity|].
  destruct (SetTransformations_composition (mkVec3 2 3 4) 0 90 0
              (mkVec3 5 6 7) fresh_scene ∅ eq_refl)
    as (sh' & model & Hrun & Hmodel & Heq & _).
  exists sh', model. repeat split; assumption.
Defined.

(** C9. With the three rotation angles 0, the model matrix of
    [SetTransformations] sends the origin to the translation, whatever the
    scale: the matrix uploaded as [model] maps (0,0,0,1) to (tx,ty,tz,1).
    (By [modelView_origin] the same holds at any angles.) *)
Theorem SetTransformations_origin
    (scaleXYZ positionXYZ : vec3) (s : SceneManager) (sh : ShaderManager) :
  m_pShaderManager s = Some sh ->
  exists sh' model,
    m_pShaderManager
      (SetTransformations scaleXYZ 0 0 0 positionXYZ s) = Some sh' /\
    sh' !! "model" = Some (UMat4 model) /\
    glm.mul_vec model (mkVec4 0 0 0 1) =
    mkVec4 (v3x positionXYZ) (v3y positionXYZ) (v3z positionXYZ) 1.
Proof.
  intros Hsh.
  destruct (SetTransformations_model scaleXYZ 0 0 0 positionXYZ s sh Hsh)
    as (sh' & Hrun & Hmodel).
  exists sh', (modelView scaleXYZ 0 0 0 positionXYZ).
  split; [exact Hrun|]. split; [exact Hmodel|].
  apply modelView_origin.
Qed.

Lemma SetTransformations_origin_witness :
  m_pShaderManager fresh_scene = Some ∅ /\
  exists sh' model,
    m_pShaderManager
      (SetTransformations (mkVec3 200 1 200) 0 0 0 (mkVec3 0 0 (-100))
         fresh_scene) = Some sh' /\
    sh' !! "model" = Some (UMat4 model) /\
    glm.mul_vec model (mkVec4 0 0 0 1) = mkVec4 0 0 (-100) 1.
Proof.
  split; [reflexivity|].
  exact (SetTransformations_origin (mkVec3 200 1 200) (mkVec3 0 0 (-100))
           fresh_scene ∅ eq_refl).
Defined.

(** ** Lighting stage *)

Section LightingFacts.
Local Open Scope R_scope.

Variable texture : Z -> vec2 -> vec4.
Variable pow : R -> R -> R.

Lemma main_unlit (u : Shader.Uniforms) (frag : Shader.Fragment) :
  Shader.bUseLighting u = false ->
  Shader.main texture pow u frag =
  if Shader.bUseTexture u
  then texture (Shader.objectTexture u)
         (mkVec2 (v2x (Shader.fragmentTextureCoordinate frag)
                  * v2x (Shader.UVscale u))
                 (v2y (Shader.fragmentTextureCoordinate frag)
                  * v2y (Shader.UVscale u)))
  else Shader.objectColor u.
Proof. intros H. unfold Shader.main. rewrite H. reflexivity. Qed.

End LightingFacts.

(** C5. With [bUseLighting] false the fragment colour is the texel sampled at
    the scaled texture coordinate when [bUseTexture] is set, and
    [objectColor] otherwise; replacing the directional, point and spot
    lights by any others leaves the colour as it is. *)
Theorem lighting_disabled_ignores_lights
    (texture : Z -> vec2 -> vec4) (pow : R -> R -> R)
    (u : Shader.Uniforms) (frag : Shader.Fragment) :
  Shader.bUseLighting u = false ->
  Shader.main texture pow u frag =
    (if Shader.bUseTexture u
     then texture (Shader.objectTexture u)
            (mkVec2 (v2x (Shader.fragmentTextureCoordinate frag)
                     * v2x (Shader.UVscale u))
                    (v2y (Shader.fragmentTextureCoordinate frag)
                     * v2y (Shader.UVscale u)))
     else Shader.objectColor u) /\
  forall dl pls sl,
    Shader.main texture pow (set_lights dl pls sl u) frag
    = Shader.main texture pow u frag.
Proof.
  intros H. split; [by apply main_unlit|].
  intros dl pls sl. rewrite !main_unlit; [reflexivity | exact H | exact H].
Qed.

Lemma lighting_disabled_ignores_lights_witness :
  Shader.bUseLighting unlit_uniforms = false /\
  Shader.main white_texture Rpower unlit_uniforms origin_fragment
    = mkVec4 1 0 0 1 /\
  Shader.main white_texture Rpower
    (set_lights (Shader.directionalLight unlit_uniforms)
       (fun _ => move_point_light (mkVec3 0 0 0) 2 point_above)
       (spot_above 1 0) unlit_uniforms) origin_fragment
    = Shader.main white_texture Rpower unlit_uniforms origin_fragment.
Proof.
  destruct (lighting_disabled_ignores_lights white_texture Rpower
              unlit_uniforms origin_fragment eq_refl) as [Hout Hsame].
  split; [reflexivity|]. split; [exact Hout|]. apply Hsame.
Defined.

Section NormalizeFacts.
Local Open Scope R_scope.

Lemma dot_self_nonneg (v : vec3) : 0 <= dot v v.
Proof. destruct v. unfold dot. simpl. nra. Qed.

(** The direction of a vector does not depend on its length. *)
Lemma normalize_scale (v : vec3) (k : R) :
  0 < k -> normalize (v3scale v k) = normalize v.
Proof.
  intros Hk. unfold normalize.
  assert (Hdot : dot (v3scale v k) (v3scale v k) = dot v v * (k * k)).
  { destruct v. unfold dot, v3scale. simpl. ring. }
  rewrite Hdot, sqrt_mult_alt by apply dot_self_nonneg.
  rewrite sqrt_square by lra. rewrite Rinv_mult.
  generalize (/ sqrt (dot v v)). intros i.
  destruct v. unfold v3scale. simpl. f_equal; field; lra.
Qed.

Lemma move_point_light_offset (fragPos : vec3) (k : R)
    (light : Shader.PointLight) :
  v3sub (Shader.pl_position (move_point_light fragPos k light)) fragPos
  = v3scale (v3sub (Shader.pl_position light) fragPos) k.
Proof.
  destruct fragPos, light as [[] ? ? ? ?].
  unfold move_point_light, v3sub, v3add, v3scale. simpl. f_equal; ring.
Qed.

End NormalizeFacts.

(** C6. The contribution of a point light is the sum of
    - ambient: [light.ambient] times the surface colour,
    - diffuse: [light.diffuse * diff * material.diffuseColor] times the
      surface colour,
    - specular: [light.specular * pow(max(dot(viewDir, reflectDir), 0),
      material.shininess) * material.specularColor], without the surface
      colour,
    where the surface colour is the texel when texturing and [objectColor]
    otherwise.  No term depends on the distance of the light: moving the light
    along its ray through the fragment leaves the contribution as it is. *)
Theorem CalcPointLight_terms
    (texture : Z -> vec2 -> vec4) (pow : R -> R -> R)
    (u : Shader.Uniforms) (frag : Shader.Fragment)
    (light : Shader.PointLight) (normal fragPos viewDir : vec3) :
  let surface :=
    if Shader.bUseTexture u
    then vec3_of_vec4 (Shader.sampled texture u frag)
    else vec3_of_vec4 (Shader.objectColor u) in
  let lightDir := normalize (v3sub (Shader.pl_position light) fragPos) in
  let diff := Rmax (dot normal lightDir) 0 in
  let reflectDir := reflect (v3neg lightDir) normal in
  let spec :=
    pow (Rmax (dot viewDir reflectDir) 0)
      (Shader.m_shininess (Shader.material u)) in
  Shader.CalcPointLight texture pow u frag light normal fragPos viewDir =
    v3add
      (v3add
         (v3mul (Shader.pl_ambient light) surface)
         (v3mul (v3mul (v3scale (Shader.pl_diffuse light) diff)
                   (Shader.m_diffuseColor (Shader.material u)))
            surface))
      (v3mul (v3scale (Shader.pl_specular light) spec)
         (Shader.m_specularColor (Shader.material u))) /\
  forall k : R, (0 < k)%R ->
    Shader.CalcPointLight texture pow u frag
      (move_point_light fragPos k light) normal fragPos viewDir
    = Shader.CalcPointLight texture pow u frag light normal fragPos viewDir.
Proof.
  cbv zeta. split.
  - unfold Shader.CalcPointLight. destruct (Shader.bUseTexture u); reflexivity.
  - intros k Hk. unfold Shader.CalcPointLight.
    rewrite move_point_light_offset, normalize_scale by exact Hk.
    reflexivity.
Qed.

Lemma CalcPointLight_terms_witness :
  (0 < 2)%R /\
  Shader.CalcPointLight white_texture Rpower unlit_uniforms origin_fragment
    (move_point_light (mkVec3 0 0 0) 2 point_above)
    (mkVec3 0 0 1) (mkVec3 0 0 0) (mkVec3 0 0 1)
  = Shader.CalcPointLight white_texture Rpower unlit_uniforms origin_fragment
      point_above (mkVec3 0 0 1) (mkVec3 0 0 0) (mkVec3 0 0 1).
Proof.
  assert (H2 : (0 < 2)%R) by lra.
  split; [exact H2|].
  exact (proj2 (CalcPointLight_terms white_texture Rpower unlit_uniforms
                  origin_fragment point_above (mkVec3 0 0 1) (mkVec3 0 0 0)
                  (mkVec3 0 0 1)) 2%R H2).
Defined.

Section SpotFacts.
Local Open Scope R_scope.

(** [clamp(t / e, 0, 1)] for a positive [e]. *)
Lemma clamp_ramp (t e : R) :
  0 < e ->
  (t <= 0 -> Shader.clamp (t / e) 0 1 = 0) /\
  (e <= t -> Shader.clamp (t / e) 0 1 = 1) /\
  (0 <= t <= e -> Shader.clamp (t / e) 0 1 = t / e).
Proof.
  intros He.
  assert (Hx : t / e * e = t) by (field; lra).
  set (x := t / e) in *. unfold Shader.clamp.
  repeat split; intros Ht.
  - assert (x <= 0) by nra.
    rewrite Rmax_right by lra. rewrite Rmin_left by lra. reflexivity.
  - assert (1 <= x) by nra.
    rewrite Rmax_left by lra. rewrite Rmin_right by lra. reflexivity.
  - assert (0 <= x <= 1) by nra.
    rewrite Rmax_left by lra. rewrite Rmin_left by lra. reflexivity.
Qed.

(** The spot light of the examples is seen from the origin along its
    axis: [theta] is 1. *)
Lemma spot_above_theta (cutOff outerCutOff : R) :
  Shader.spot_theta (spot_above cutOff outerCutOff) (mkVec3 0 0 0) = 1.
Proof.
  unfold Shader.spot_theta, spot_above. simpl.
  rewrite !normalize_unit by (unfold dot, v3sub, v3neg; simpl; ring).
  unfold dot, v3sub, v3neg. simpl. ring.
Qed.

End SpotFacts.

(** C7, as stated, fails when the cut-offs are not ordered.  The spot light
    with [cutOff = 1/2] and [outerCutOff = 3/4] sees the origin at
    [theta = 1], at or above the inner cut-off, and its intensity factor there
    is 0, not 1. *)
Lemma spot_intensity_unordered_cutoffs :
  (Shader.sl_cutOff (spot_above (1/2) (3/4))
   <= Shader.spot_theta (spot_above (1/2) (3/4)) (mkVec3 0 0 0))%R /\
  Shader.spot_intensity (spot_above (1/2) (3/4)) (mkVec3 0 0 0) = 0%R /\
  Shader.spot_intensity (spot_above (1/2) (3/4)) (mkVec3 0 0 0) <> 1%R.
Proof.
  assert (H : Shader.spot_intensity (spot_above (1/2) (3/4)) (mkVec3 0 0 0)
              = 0%R).
  { unfold Shader.spot_intensity. rewrite spot_above_theta. simpl.
    replace ((1 - 3 / 4) / (1 / 2 - 3 / 4))%R with (-1)%R by field.
    unfold Shader.clamp.
    rewrite Rmax_right by lra. rewrite Rmin_left by lra. reflexivity. }
  split; [rewrite spot_above_theta; simpl; lra|].
  split; [exact H|]. rewrite H. lra.
Qed.

(** C7, amended.  The contribution of a spot light is the sum of its ambient,
    diffuse and specular terms, each multiplied by
    [attenuation * intensity], where
    [attenuation = 1 / (constant + linear * dist + quadratic * dist^2)] and
    [intensity = clamp((theta - outerCutOff) / (cutOff - outerCutOff), 0, 1)].
    When [outerCutOff < cutOff], the intensity is 0 for [theta] at or below
    the outer cut-off, 1 for [theta] at or above the inner cut-off, and
    [(theta - outerCutOff) / (cutOff - outerCutOff)] in between. *)
Theorem CalcSpotLight_terms
    (texture : Z -> vec2 -> vec4) (pow : R -> R -> R)
    (u : Shader.Uniforms) (frag : Shader.Fragment)
    (light : Shader.SpotLight) (normal fragPos viewDir : vec3) :
  let surface :=
    if Shader.bUseTexture u
    then vec3_of_vec4 (Shader.sampled texture u frag)
    else vec3_of_vec4 (Shader.objectColor u) in
  let lightDir := normalize (v3sub (Shader.sl_position light) fragPos) in
  let diff := Rmax (dot normal lightDir) 0 in
  let reflectDir := reflect (v3neg lightDir) normal in
  let spec :=
    pow (Rmax (dot viewDir reflectDir) 0)
      (Shader.m_shininess (Shader.material u)) in
  let dist := length3 (v3sub (Shader.sl_position light) fragPos) in
  let attenuation :=
    (1 / (Shader.sl_constant light + Shader.sl_linear light * dist
          + Shader.sl_quadratic light * (dist * dist)))%R in
  let theta := dot lightDir (normalize (v3neg (Shader.sl_direction light))) in
  let intensity :=
    Shader.clamp
      ((theta - Shader.sl_outerCutOff light)
       / (Shader.sl_cutOff light - Shader.sl_outerCutOff light)) 0 1 in
  Shader.CalcSpotLight texture pow u frag light normal fragPos viewDir =
    v3add
      (v3add
         (v3scale (v3mul (Shader.sl_ambient light) surface)
            (attenuation * intensity))
         (v3scale
            (v3mul (v3mul (v3scale (Shader.sl_diffuse light) diff)
                      (Shader.m_diffuseColor (Shader.material u)))
               surface)
            (attenuation * intensity)))
      (v3scale
         (v3mul (v3mul (v3scale (Shader.sl_specular light) spec)
                   (Shader.m_specularColor (Shader.material u)))
            surface)
         (attenuation * intensity)) /\
  ((Shader.sl_outerCutOff light < Shader.sl_cutOff light)%R ->
   ((theta <= Shader.sl_outerCutOff light)%R -> intensity = 0%R) /\
   ((Shader.sl_cutOff light <= theta)%R -> intensity = 1%R) /\
   ((Shader.sl_outerCutOff light <= theta <= Shader.sl_cutOff light)%R ->
    intensity =
      ((theta - Shader.sl_outerCutOff light)
       / (Shader.sl_cutOff light - Shader.sl_outerCutOff light))%R)).
Proof.
  cbv zeta. split.
  - unfold Shader.CalcSpotLight, Shader.spot_attenuation,
      Shader.spot_intensity, Shader.spot_theta.
    destruct (Shader.bUseTexture u); reflexivity.
  - intros Hord.
    match goal with
    | |- context [Shader.clamp (?t / ?e) 0 1] =>
        destruct (clamp_ramp t e) as (Hlow & Hhigh & Hmid); [lra|]
    end.
    repeat split; intros Ht; [apply Hlow | apply Hhigh | apply Hmid]; lra.
Qed.

(** The spot light with [cutOff = 3/4] and [outerCutOff = 1/2], seen from
    the origin on its axis: full intensity. *)
Lemma CalcSpotLight_terms_witness :
  (Shader.sl_outerCutOff (spot_above (3/4) (1/2))
   < Shader.sl_cutOff (spot_above (3/4) (1/2)))%R /\
  Shader.spot_intensity (spot_above (3/4) (1/2)) (mkVec3 0 0 0) = 1%R.
Proof.
  assert (Hord : (Shader.sl_outerCutOff (spot_above (3/4) (1/2))
                  < Shader.sl_cutOff (spot_above (3/4) (1/2)))%R)
    by (simpl; lra).
  split; [exact Hord|].
  destruct (proj2 (CalcSpotLight_terms white_texture Rpower unlit_uniforms
                     origin_fragment (spot_above (3/4) (1/2)) (mkVec3 0 0 1)
                     (mkVec3 0 0 0) (mkVec3 0 0 1)) Hord)
    as (_ & Hhigh & _).
  apply Hhigh.
  change (Shader.sl_cutOff (spot_above (3/4) (1/2))
          <= Shader.spot_theta (spot_above (3/4) (1/2)) (mkVec3 0 0 0))%R.
  rewrite spot_above_theta. simpl. lra.
Defined.

(** * Further properties *)

(** ** Texture load: outcomes *)

Section LoadFacts.

Variable gen_name : list GLuint -> GLuint.
Variable stbi_load : string -> option Image.

(** The three ways in which [CreateGLTexture] returns. *)
Lemma CreateGLTexture_cases (filename tag : string) (b : bool)
    (s s' : SceneManager) :
  CreateGLTexture gen_name stbi_load filename tag s = Some (b, s') ->
  m_pShaderManager s' = m_pShaderManager s /\
  m_objectMaterials s' = m_objectMaterials s /\
  ((b = false /\ stbi_load filename = None /\
    m_textureIDs s' = m_textureIDs s /\
    m_loadedTextures s' = m_loadedTextures s /\
    gl_names (world s') = gl_names (world s) /\
    stb_live (world s') = stb_live (world s)) \/
   (b = false /\
    (exists image, stbi_load filename = Some image /\
       img_channels image <> 3 /\ img_channels image <> 4) /\
    m_textureIDs s' = m_textureIDs s /\
    m_loadedTextures s' = m_loadedTextures s /\
    gl_names (world s') = gen_name (gl_names (world s)) :: gl_names (world s) /\
    stb_live (world s') = S (stb_live (world s))) \/
   (b = true /\
    (exists image, stbi_load filename = Some image /\
       (img_channels image = 3 \/ img_channels image = 4)) /\
    is_Some (texture_at s (m_loadedTextures s)) /\
    m_textureIDs s' =
      <[Z.to_nat (m_loadedTextures s) :=
          mkTexture tag (gen_name (gl_names (world s)))]> (m_textureIDs s) /\
    m_loadedTextures s' = m_loadedTextures s + 1 /\
    gl_names (world s') = gen_name (gl_names (world s)) :: gl_names (world s) /\
    stb_live (world s') = stb_live (world s) /\
    head (gl_calls (world s')) = Some (glBindTexture 0))).
Proof.
  unfold CreateGLTexture.
  destruct (stbi_load filename) as [image|] eqn:Hload.
  - cbn [gen_texture stb_alloc print gl_call gl_names].
    destruct (Z.eqb_spec (img_channels image) 3) as [H3|H3];
      [|destruct (Z.eqb_spec (img_channels image) 4) as [H4|H4]].
    + destruct (texture_at s (m_loadedTextures s)) as [e0|] eqn:Hat;
        [|discriminate].
      intros [= <- <-]. cbn. repeat split. right. right.
      repeat split; eauto.
    + destruct (texture_at s (m_loadedTextures s)) as [e0|] eqn:Hat;
        [|discriminate].
      intros [= <- <-]. cbn. repeat split. right. right.
      repeat split; eauto.
    + intros [= <- <-]. cbn. repeat split. right. left.
      repeat split; eauto.
  - intros [= <- <-]. cbn. repeat split. left. repeat split.
Qed.

Lemma texture_at_in_bounds (s : SceneManager) :
  registry_ok s -> is_Some (texture_at s (m_loadedTextures s)) ->
  m_loadedTextures s < MAX_TEXTURES.
Proof.
  intros [Hlen Hn] Hat. unfold texture_at in Hat.
  destruct (Z.ltb_spec (m_loadedTextures s) 0); [by destruct Hat|].
  apply lookup_lt_is_Some_1 in Hat. lia.
Qed.

Lemma entries_after_insert (s : SceneManager) (e : TEXTURE_INFO) :
  registry_ok s -> m_loadedTextures s < MAX_TEXTURES ->
  take (Z.to_nat (m_loadedTextures s + 1))
    (<[Z.to_nat (m_loadedTextures s) := e]> (m_textureIDs s))
  = entries s ++ [e].
Proof.
  intros [Hlen Hn] Hroom. unfold entries.
  replace (Z.to_nat (m_loadedTextures s + 1))
    with (S (Z.to_nat (m_loadedTextures s))) by lia.
  erewrite take_S_r; [|apply list_lookup_insert_eq; lia].
  rewrite take_insert_ge; [done | lia].
Qed.

(** The effect of a load on the registered entries. *)
Lemma CreateGLTexture_entries (filename tag : string) (b : bool)
    (s s' : SceneManager) :
  registry_ok s ->
  CreateGLTexture gen_name stbi_load filename tag s = Some (b, s') ->
  registry_ok s' /\
  entries s' =
    entries s ++
      (if b then [mkTexture tag (gen_name (gl_names (world s)))] else []).
Proof.
  intros Hok Hrun. pose proof Hok as [Hlen Hn].
  destruct (CreateGLTexture_cases _ _ _ _ _ Hrun) as (_ & _ & Hcase).
  destruct Hcase as
    [(-> & _ & Harr & Hcount & _) |
     [(-> & _ & Harr & Hcount & _) |
      (-> & _ & Hat & Harr & Hcount & _)]].
  - unfold registry_ok, entries. rewrite Harr, Hcount, app_nil_r. done.
  - unfold registry_ok, entries. rewrite Harr, Hcount, app_nil_r. done.
  - pose proof (texture_at_in_bounds s Hok Hat) as Hroom. split.
    + unfold registry_ok. rewrite Harr, Hcount, length_insert. lia.
    + unfold entries at 1. rewrite Harr, Hcount.
      by apply entries_after_insert.
Qed.

End LoadFacts.

Lemma fresh_scene_ok : registry_ok fresh_scene.
Proof. split; [reflexivity | vm_compute; split; discriminate]. Defined.

Lemma full_scene_ok : registry_ok full_scene.
Proof. split; [reflexivity | vm_compute; split; discriminate]. Defined.

Lemma no_match_nil (tag : string) : no_match tag [].
Proof. intros j e H. by destruct j. Defined.

(** X1. Load, then look up: a tag that is not yet registered is found, after
    a successful load, at the slot that was the count before the load, with
    the handle that [glGenTextures] handed out. *)
Theorem CreateGLTexture_then_lookup
    (gen_name : list GLuint -> GLuint) (stbi_load : string -> option Image)
    (filename tag : string) (image : Image) (s : SceneManager) :
  registry_ok s ->
  m_loadedTextures s < MAX_TEXTURES ->
  stbi_load filename = Some image ->
  img_channels image = 3 \/ img_channels image = 4 ->
  no_match tag (entries s) ->
  exists s',
    CreateGLTexture gen_name stbi_load filename tag s = Some (true, s') /\
    FindTextureSlot tag s' = Some (m_loadedTextures s) /\
    FindTextureID tag s'
      = Some (int_of_GLuint (gen_name (gl_names (world s)))).
Proof.
  intros Hok Hroom Hload Hch Hno.
  destruct (CreateGLTexture_success gen_name stbi_load filename tag image s
              Hok Hroom Hload Hch) as (s' & Hrun & Hok' & Hcount & Hent).
  exists s'. split; [exact Hrun|].
  set (new := mkTexture tag (gen_name (gl_names (world s)))) in *.
  assert (Hlen : length (entries s) = Z.to_nat (m_loadedTextures s)).
  { destruct Hok as [Hl Hn]. unfold entries. rewrite length_take. lia. }
  assert (Hfm : first_match tag (entries s') (Z.to_nat (m_loadedTextures s)) new).
  { rewrite Hent. repeat split.
    - rewrite lookup_app_r by lia. by rewrite Hlen, Nat.sub_diag.
    - intros j e' Hj He'. rewrite lookup_app_l in He' by lia.
      by apply (Hno j e'). }
  destruct Hok as [_ Hn]. split.
  - unfold FindTextureSlot.
    rewrite (find_texture_first_match s' tag (fun index _ => index) _ _ Hfm).
    f_equal. lia.
  - apply (find_texture_first_match s' tag
             (fun _ e => int_of_GLuint (tex_ID e)) _ _ Hfm).
Qed.

Lemma CreateGLTexture_then_lookup_witness :
  registry_ok fresh_scene /\
  exists s',
    CreateGLTexture next_name (decode_as 4) "textures/stone.jpg" "stone"
      fresh_scene = Some (true, s') /\
    FindTextureSlot "stone" s' = Some 0 /\
    FindTextureID "stone" s' = Some 1.
Proof.
  split; [exact fresh_scene_ok|].
  apply (CreateGLTexture_then_lookup next_name (decode_as 4)
           "textures/stone.jpg" "stone" (mkImage 2 2 4) fresh_scene
           fresh_scene_ok).
  - vm_compute. reflexivity.
  - reflexivity.
  - right. reflexivity.
  - exact (no_match_nil "stone").
Defined.

(** X2. A load, whether it succeeds or fails, does not change what the
    lookups answer for any other tag. *)
Theorem CreateGLTexture_other_tags
    (gen_name : list GLuint -> GLuint) (stbi_load : string -> option Image)
    (filename tag tag' : string) (b : bool) (s s' : SceneManager) :
  registry_ok s ->
  CreateGLTexture gen_name stbi_load filename tag s = Some (b, s') ->
  tag' <> tag ->
  FindTextureSlot tag' s' = FindTextureSlot tag' s /\
  FindTextureID tag' s' = FindTextureID tag' s.
Proof.
  intros Hok Hrun Hne.
  destruct (CreateGLTexture_entries gen_name stbi_load filename tag b s s'
              Hok Hrun) as [Hok' Hent].
  destruct (first_match_or_none tag' (entries s)) as [Hno | (i & e & Hfm)].
  - assert (Hno' : no_match tag' (entries s')).
    { rewrite Hent. intros j e He.
      apply lookup_app_Some in He as [He | [_ He]]; [by apply (Hno j)|].
      destruct b; [|by destruct (j - length (entries s))%nat].
      destruct (j - length (entries s))%nat; [|by destruct n].
      injection He as <-. simpl. congruence. }
    unfold FindTextureSlot, FindTextureID.
    by rewrite !find_texture_no_match.
  - assert (Hfm' : first_match tag' (entries s') i e).
    { rewrite Hent. by apply first_match_app. }
    unfold FindTextureSlot, FindTextureID.
    by rewrite !(find_texture_first_match _ tag' _ i e).
Qed.

Lemma CreateGLTexture_other_tags_witness :
  registry_ok leaves_scene /\
  exists s',
    CreateGLTexture next_name (decode_as 3) "textures/log.jpg" "log"
      leaves_scene = Some (true, s') /\
    FindTextureSlot "leaves" s' = FindTextureSlot "leaves" leaves_scene /\
    FindTextureID "leaves" s' = FindTextureID "leaves" leaves_scene.
Proof.
  split; [exact leaves_scene_ok|].
  eexists. split; [vm_compute; reflexivity|].
  apply (CreateGLTexture_other_tags next_name (decode_as 3)
           "textures/log.jpg" "log" "leaves" true leaves_scene _
           leaves_scene_ok).
  - vm_compute. reflexivity.
  - discriminate.
Defined.

(** X3. Whatever its outcome, a load keeps the array and the count
    consistent, keeps every entry registered before at its slot, appends one
    entry exactly when it returns [true], leaves the materials and the shader
    manager alone, and takes no texture name out of use. *)
Theorem CreateGLTexture_preserves_registry
    (gen_name : list GLuint -> GLuint) (stbi_load : string -> option Image)
    (filename tag : string) (b : bool) (s s' : SceneManager) :
  registry_ok s ->
  CreateGLTexture gen_name stbi_load filename tag s = Some (b, s') ->
  registry_ok s' /\
  entries s' =
    entries s ++
      (if b then [mkTexture tag (gen_name (gl_names (world s)))] else []) /\
  m_loadedTextures s' = m_loadedTextures s + (if b then 1 else 0) /\
  m_objectMaterials s' = m_objectMaterials s /\
  m_pShaderManager s' = m_pShaderManager s /\
  (forall x, x ∈ gl_names (world s) -> x ∈ gl_names (world s')).
Proof.
  intros Hok Hrun.
  destruct (CreateGLTexture_entries gen_name stbi_load filename tag b s s'
              Hok Hrun) as [Hok' Hent].
  destruct (CreateGLTexture_cases _ _ _ _ _ _ _ Hrun) as (Hsh & Hmat & Hcase).
  split; [exact Hok'|]. split; [exact Hent|].
  destruct Hcase as
    [(-> & _ & _ & Hcount & Hnames & _) |
     [(-> & _ & _ & Hcount & Hnames & _) |
      (-> & _ & _ & _ & Hcount & Hnames & _)]];
    rewrite Hcount, Hnames; repeat split; try done; try lia;
    intros x Hx; by right.
Qed.

Lemma CreateGLTexture_preserves_registry_witness :
  registry_ok leaves_scene /\
  exists s',
    CreateGLTexture next_name decode_fails "textures/log.jpg" "log"
      leaves_scene = Some (false, s') /\
    registry_ok s' /\
    entries s' = [mkTexture "leaves" 1].
Proof.
  split; [exact leaves_scene_ok|].
  eexists. split; [vm_compute; reflexivity|].
  destruct (CreateGLTexture_preserves_registry next_name decode_fails
              "textures/log.jpg" "log" false leaves_scene _ leaves_scene_ok
              eq_refl) as (Hok' & Hent & _).
  split; [exact Hok' | exact Hent].
Defined.

(** X4. The load has no capacity guard: with all 16 slots taken, an image
    that decodes with 3 or 4 channels makes the load write
    [m_textureIDs[16]], outside the array. *)
Theorem CreateGLTexture_full_registry
    (gen_name : list GLuint -> GLuint) (stbi_load : string -> option Image)
    (filename tag : string) (image : Image) (s : SceneManager) :
  registry_ok s ->
  m_loadedTextures s = MAX_TEXTURES ->
  stbi_load filename = Some image ->
  img_channels image = 3 \/ img_channels image = 4 ->
  CreateGLTexture gen_name stbi_load filename tag s = None.
Proof.
  intros [Hlen Hn] Hfull Hload Hch.
  destruct (CreateGLTexture gen_name stbi_load filename tag s)
    as [[b s']|] eqn:Hrun; [|done].
  exfalso.
  destruct (CreateGLTexture_cases _ _ _ _ _ _ _ Hrun) as (_ & _ & Hcase).
  destruct Hcase as
    [(_ & Hnone & _) |
     [(_ & (image' & Hload' & H3 & H4) & _) |
      (_ & _ & Hat & _)]].
  - congruence.
  - rewrite Hload in Hload'. injection Hload' as <-. lia.
  - pose proof (texture_at_in_bounds s (conj Hlen Hn) Hat). lia.
Qed.

Lemma CreateGLTexture_full_registry_witness :
  registry_ok full_scene /\
  CreateGLTexture next_name (decode_as 3) "textures/more.jpg" "more"
    full_scene = None.
Proof.
  split; [exact full_scene_ok|].
  apply (CreateGLTexture_full_registry next_name (decode_as 3)
           "textures/more.jpg" "more" (mkImage 2 2 3) full_scene
           full_scene_ok).
  - reflexivity.
  - reflexivity.
  - left. reflexivity.
Defined.

(** X5. When the context hands out unused names, a load keeps the handles of
    the registry sound: every registered handle is a name in use and no two
    entries share a handle. *)
Theorem CreateGLTexture_keeps_handles
    (gen_name : list GLuint -> GLuint) (stbi_load : string -> option Image)
    (filename tag : string) (b : bool) (s s' : SceneManager) :
  (forall l, gen_name l ∉ l) ->
  registry_ok s ->
  handles_ok s ->
  CreateGLTexture gen_name stbi_load filename tag s = Some (b, s') ->
  handles_ok s'.
Proof.
  intros Hfresh Hok [Hnd Hlive] Hrun.
  destruct (CreateGLTexture_entries gen_name stbi_load filename tag b s s'
              Hok Hrun) as [_ Hent].
  destruct (CreateGLTexture_cases _ _ _ _ _ _ _ Hrun) as (_ & _ & Hcase).
  unfold handles_ok. rewrite Hent.
  destruct Hcase as
    [(-> & _ & _ & _ & Hnames & _) |
     [(-> & _ & _ & _ & Hnames & _) |
      (-> & _ & _ & _ & _ & Hnames & _)]]; rewrite Hnames.
  - rewrite app_nil_r. split; [exact Hnd | exact Hlive].
  - rewrite app_nil_r. split; [exact Hnd|].
    intros e He. right. by apply Hlive.
  - split.
    + rewrite map_app. apply NoDup_app. split; [exact Hnd|].
      split; [|apply NoDup_singleton].
      intros x Hx Hx'. apply list_elem_of_singleton in Hx'. subst x.
      apply list_elem_of_fmap in Hx as (e & Hid & He).
      apply (Hfresh (gl_names (world s))). simpl in Hid. rewrite Hid.
      by apply Hlive.
    + intros e He. apply elem_of_app in He as [He|He].
      * right. by apply Hlive.
      * apply list_elem_of_singleton in He. subst e. left.
Qed.

Lemma leaves_scene_handles : handles_ok leaves_scene.
Proof.
  unfold handles_ok.
  change (entries leaves_scene) with [mkTexture "leaves" 1].
  change (gl_names (world leaves_scene)) with [1].
  split; [apply NoDup_singleton|].
  intros e He. apply list_elem_of_singleton in He. subst e. left.
Defined.

Lemma CreateGLTexture_keeps_handles_witness :
  registry_ok leaves_scene /\ handles_ok leaves_scene /\
  exists s',
    CreateGLTexture next_name (decode_as 3) "textures/log.jpg" "log"
      leaves_scene = Some (true, s') /\
    handles_ok s'.
Proof.
  split; [exact leaves_scene_ok|]. split; [exact leaves_scene_handles|].
  eexists. split; [vm_compute; reflexivity|].
  apply (CreateGLTexture_keeps_handles next_name (decode_as 3)
           "textures/log.jpg" "log" true leaves_scene _ next_name_fresh
           leaves_scene_ok leaves_scene_handles).
  vm_compute. reflexivity.
Defined.

(** ** Teardown and binding *)

Section TeardownFacts.

Variable gen_name : list GLuint -> GLuint.

(** The registered entries after [DestroyGLTextures]: the tags as before,
    the handles replaced by the generated names. *)
Lemma DestroyGLTextures_entries (s : SceneManager) :
  registry_ok s ->
  exists s',
    DestroyGLTextures gen_name s = Some s' /\
    registry_ok s' /\
    map tex_tag (entries s') = map tex_tag (entries s) /\
    map tex_ID (entries s')
      = gen_names gen_name (Z.to_nat (m_loadedTextures s))
          (gl_names (world s)) /\
    gl_names (world s')
      = rev (gen_names gen_name (Z.to_nat (m_loadedTextures s))
               (gl_names (world s))) ++ gl_names (world s).
Proof.
  intros [Hlen Hn].
  destruct (DestroyGLTextures_loop gen_name (Z.to_nat (m_loadedTextures s))
              0%nat s) as
    (s' & Hrun & Hcount & _ & _ & Hlen' & Hnames & _ & _ & _ & Hpt); [lia|].
  exists s'. split; [exact Hrun|].
  set (new := gen_names gen_name _ _) in *.
  assert (Hnew : length new = Z.to_nat (m_loadedTextures s))
    by apply length_gen_names.
  assert (Hent : forall j e, entries s !! j = Some e ->
            entries s' !! j = Some (mkTexture (tex_tag e) (nth j new 0))).
  { intros j e He. apply entries_lookup in He as [Hj He].
    apply entries_lookup. split; [lia|].
    rewrite (Hpt j e He), decide_True by lia. by rewrite Nat.sub_0_r. }
  assert (Hlens : length (entries s') = length (entries s)).
  { unfold entries. rewrite !length_take, Hcount, Hlen'. done. }
  assert (Hlene : length (entries s) = Z.to_nat (m_loadedTextures s)).
  { unfold entries. rewrite length_take. lia. }
  split; [split; [rewrite Hlen'|rewrite Hcount]; done|].
  split; [|split; [|exact Hnames]].
  - apply list_eq. intros j. rewrite !list_lookup_fmap.
    destruct (entries s !! j) as [e|] eqn:He.
    + by rewrite (Hent j e He).
    + apply lookup_ge_None in He.
      rewrite (lookup_ge_None_2 (entries s') j); [done | lia].
  - apply list_eq. intros j. rewrite list_lookup_fmap.
    destruct (entries s !! j) as [e|] eqn:He.
    + rewrite (Hent j e He). simpl.
      apply lookup_lt_Some in He.
      destruct (lookup_lt_is_Some_2 new j) as [x Hx]; [lia|].
      by rewrite Hx, nth_lookup, Hx.
    + apply lookup_ge_None in He.
      rewrite (lookup_ge_None_2 (entries s') j) by lia.
      rewrite (lookup_ge_None_2 new j); [done | lia].
Qed.

End TeardownFacts.

(** [FindTextureSlot] reads the tags only. *)
Lemma FindTextureSlot_tags (tag : string) (s1 s2 : SceneManager) :
  registry_ok s1 -> registry_ok s2 ->
  map tex_tag (entries s1) = map tex_tag (entries s2) ->
  FindTextureSlot tag s1 = FindTextureSlot tag s2.
Proof.
  intros Hok1 Hok2 Htags.
  assert (Hlk : forall j, tex_tag <$> (entries s1 !! j)
                          = tex_tag <$> (entries s2 !! j)).
  { intros j. rewrite <- !list_lookup_fmap.
    change (map tex_tag (entries s1) !! j = map tex_tag (entries s2) !! j).
    by rewrite Htags. }
  unfold FindTextureSlot.
  destruct (first_match_or_none tag (entries s1)) as [Hno | (i & e & Hfm)].
  - rewrite !find_texture_no_match; try done.
    intros j e2 He2 Ht. specialize (Hlk j). rewrite He2 in Hlk.
    destruct (entries s1 !! j) as [e1|] eqn:He1; [|done].
    simpl in Hlk. injection Hlk as Hlk. apply (Hno j e1 He1). congruence.
  - destruct Hfm as (He & Ht & Hbefore).
    pose proof (Hlk i) as Hi. rewrite He in Hi.
    destruct (entries s2 !! i) as [e2|] eqn:He2; [|done].
    simpl in Hi. injection Hi as Hi.
    rewrite (find_texture_first_match s1 tag _ i e); [|by repeat split].
    rewrite (find_texture_first_match s2 tag _ i e2); [done|].
    repeat split; [done | congruence |].
    intros j e2' Hj He2' Ht'. specialize (Hlk j). rewrite He2' in Hlk.
    destruct (entries s1 !! j) as [e1|] eqn:He1; [|done].
    simpl in Hlk. injection Hlk as Hlk. apply (Hbefore j e1 Hj He1). congruence.
Qed.

(** X6. When the context hands out unused names, the registry after
    [DestroyGLTextures] holds pairwise distinct handles that are all in use,
    and none of them is a name that was in use before: the textures that were
    registered are no longer referred to, but their names are still taken. *)
Theorem DestroyGLTextures_abandons_handles
    (gen_name : list GLuint -> GLuint) (s : SceneManager) :
  (forall l, gen_name l ∉ l) ->
  registry_ok s ->
  exists s',
    DestroyGLTextures gen_name s = Some s' /\
    handles_ok s' /\
    (forall e', e' ∈ entries s' -> tex_ID e' ∉ gl_names (world s)) /\
    (forall x, x ∈ gl_names (world s) -> x ∈ gl_names (world s')).
Proof.
  intros Hfresh Hok.
  destruct (DestroyGLTextures_entries gen_name s Hok)
    as (s' & Hrun & _ & _ & Hids & Hnames).
  destruct (gen_names_fresh gen_name (Z.to_nat (m_loadedTextures s))
              (gl_names (world s)) Hfresh) as [Hnd Hnew].
  exists s'. split; [exact Hrun|].
  assert (Hin : forall e', e' ∈ entries s' ->
            tex_ID e' ∈ gen_names gen_name (Z.to_nat (m_loadedTextures s))
                         (gl_names (world s))).
  { intros e' He'. rewrite <- Hids. apply list_elem_of_fmap. eauto. }
  split; [split|split].
  - by rewrite Hids.
  - intros e' He'. rewrite Hnames. apply elem_of_app. left.
    apply list_elem_of_In. apply -> in_rev. apply list_elem_of_In.
    by apply Hin.
  - intros e' He'. apply Hnew. by apply Hin.
  - intros x Hx. rewrite Hnames. apply elem_of_app. by right.
Qed.

Lemma DestroyGLTextures_abandons_handles_witness :
  registry_ok leaves_scene /\
  exists s',
    DestroyGLTextures next_name leaves_scene = Some s' /\
    handles_ok s' /\
    entries s' = [mkTexture "leaves" 2] /\
    gl_names (world s') = [2; 1].
Proof.
  split; [exact leaves_scene_ok|].
  destruct (DestroyGLTextures_abandons_handles next_name leaves_scene
              next_name_fresh leaves_scene_ok) as (s' & Hrun & Hh & _).
  exists s'. split; [exact Hrun|]. split; [exact Hh|].
  vm_compute in Hrun. injection Hrun as <-. split; reflexivity.
Defined.

(** X7. [DestroyGLTextures] does not unregister anything: the count is
    unchanged and [FindTextureSlot] answers for every tag as before. *)
Theorem DestroyGLTextures_keeps_slots
    (gen_name : list GLuint -> GLuint) (tag : string) (s : SceneManager) :
  registry_ok s ->
  exists s',
    DestroyGLTextures gen_name s = Some s' /\
    registry_ok s' /\
    length (entries s') = length (entries s) /\
    FindTextureSlot tag s' = FindTextureSlot tag s.
Proof.
  intros Hok.
  destruct (DestroyGLTextures_entries gen_name s Hok)
    as (s' & Hrun & Hok' & Htags & _).
  exists s'. split; [exact Hrun|]. split; [exact Hok'|]. split.
  - by rewrite <- (List.length_map tex_tag (entries s')), Htags, List.length_map.
  - by apply FindTextureSlot_tags.
Qed.

Lemma DestroyGLTextures_keeps_slots_witness :
  registry_ok leaves_scene /\
  exists s',
    DestroyGLTextures next_name leaves_scene = Some s' /\
    FindTextureSlot "leaves" s' = Some 0.
Proof.
  split; [exact leaves_scene_ok|].
  destruct (DestroyGLTextures_keeps_slots next_name "leaves" leaves_scene
              leaves_scene_ok) as (s' & Hrun & _ & _ & Hslot).
  exists s'. split; [exact Hrun | exact Hslot].
Defined.

(** The loop of [BindGLTextures], from any start index. *)
Lemma BindGLTextures_loop (steps index : nat) (s : SceneManager) :
  (index + steps <= length (m_textureIDs s))%nat ->
  exists s',
    for_loop steps (Z.of_nat index)
      (fun i s =>
         e ← texture_at s i;
         let w := gl_call (glActiveTexture i) (world s) in
         let w := gl_call (glBindTexture (tex_ID e)) w in
         Some (with_world w s)) s = Some s' /\
    m_textureIDs s' = m_textureIDs s /\
    m_loadedTextures s' = m_loadedTextures s /\
    m_objectMaterials s' = m_objectMaterials s /\
    m_pShaderManager s' = m_pShaderManager s /\
    gl_names (world s') = gl_names (world s) /\
    stb_live (world s') = stb_live (world s) /\
    console (world s') = console (world s) /\
    gl_calls (world s')
      = rev (bind_calls (Z.of_nat index)
               (take steps (drop index (m_textureIDs s))))
          ++ gl_calls (world s).
Proof.
  revert index s. induction steps as [|k IH]; intros index s Hlen.
  - exists s. repeat split.
  - cbn [for_loop]. rewrite texture_at_nat.
    destruct (lookup_lt_is_Some_2 (m_textureIDs s) index) as [e He]; [lia|].
    rewrite He. cbn [mbind option_bind].
    set (s1 := with_world _ s).
    replace (Z.of_nat index + 1) with (Z.of_nat (S index)) by lia.
    destruct (IH (S index) s1) as
      (s' & Hrun & Harr & Hcount & Hmat & Hsh & Hnames & Hstb & Hcon & Hcalls);
      [subst s1; simpl; lia|].
    exists s'. split; [exact Hrun|].
    repeat split; try (etransitivity; [eassumption | reflexivity]).
    rewrite Hcalls. subst s1. cbn [with_world m_textureIDs world gl_call gl_calls].
    rewrite (drop_S _ e index He). cbn [take bind_calls rev].
    replace (Z.of_nat index + 1) with (Z.of_nat (S index)) by lia.
    rewrite <- !app_assoc. reflexivity.
Qed.

(** X8. [BindGLTextures] binds the entry of slot [i] to texture unit [i], in
    the order of the slots, and does nothing else: registry, materials,
    shader manager and the texture names in use are as before. *)
Theorem BindGLTextures_units (s : SceneManager) :
  registry_ok s ->
  exists s',
    BindGLTextures s = Some s' /\
    gl_calls (world s') = rev (bind_calls 0 (entries s)) ++ gl_calls (world s) /\
    gl_names (world s') = gl_names (world s) /\
    m_textureIDs s' = m_textureIDs s /\
    m_loadedTextures s' = m_loadedTextures s /\
    m_objectMaterials s' = m_objectMaterials s /\
    m_pShaderManager s' = m_pShaderManager s.
Proof.
  intros [Hlen Hn].
  destruct (BindGLTextures_loop (Z.to_nat (m_loadedTextures s)) 0%nat s)
    as (s' & Hrun & Harr & Hcount & Hmat & Hsh & Hnames & _ & _ & Hcalls);
    [lia|].
  exists s'. split; [exact Hrun|].
  split; [exact Hcalls|]. repeat split; assumption.
Qed.

Lemma BindGLTextures_units_witness :
  registry_ok leaves_scene /\
  exists s',
    BindGLTextures leaves_scene = Some s' /\
    gl_calls (world s')
      = [glBindTexture 1; glActiveTexture 0] ++ gl_calls (world leaves_scene).
Proof.
  split; [exact leaves_scene_ok|].
  destruct (BindGLTextures_units leaves_scene leaves_scene_ok)
    as (s' & Hrun & Hcalls & _).
  exists s'. split; [exact Hrun | exact Hcalls].
Defined.

(** ** Loading the textures of the scene *)

Section SceneTextureFacts.

Variable gen_name : list GLuint -> GLuint.
Variable stbi_load : string -> option Image.

(** With a free slot the load returns, whatever the decoder does. *)
Lemma CreateGLTexture_step (filename tag : string) (s : SceneManager) :
  registry_ok s -> m_loadedTextures s < MAX_TEXTURES ->
  exists b s',
    CreateGLTexture gen_name stbi_load filename tag s = Some (b, s') /\
    registry_ok s' /\
    entries s `prefix_of` entries s' /\
    m_loadedTextures s <= m_loadedTextures s' <= m_loadedTextures s + 1.
Proof.
  intros Hok Hroom.
  assert (Hrun : exists b s',
            CreateGLTexture gen_name stbi_load filename tag s = Some (b, s')).
  { destruct (stbi_load filename) as [image|] eqn:Hload.
    - destruct (decide (img_channels image = 3)) as [H3|H3];
        [|destruct (decide (img_channels image = 4)) as [H4|H4]].
      + destruct (CreateGLTexture_success gen_name stbi_load filename tag
                    image s Hok Hroom Hload (or_introl H3)) as (s' & Hr & _).
        eauto.
      + destruct (CreateGLTexture_success gen_name stbi_load filename tag
                    image s Hok Hroom Hload (or_intror H4)) as (s' & Hr & _).
        eauto.
      + destruct (CreateGLTexture_unsupported_channels gen_name stbi_load
                    filename tag image s Hload H3 H4) as (s' & Hr & _).
        eauto.
    - destruct (CreateGLTexture_decode_failure gen_name stbi_load filename
                  tag s Hload) as (s' & Hr & _).
      eauto. }
  destruct Hrun as (b & s' & Hrun). exists b, s'. split; [exact Hrun|].
  destruct (CreateGLTexture_entries gen_name stbi_load filename tag b s s'
              Hok Hrun) as [Hok' Hent].
  split; [exact Hok'|]. split; [rewrite Hent; by apply prefix_app_r|].
  destruct (CreateGLTexture_cases _ _ _ _ _ _ _ Hrun) as (_ & _ & Hcase).
  destruct Hcase as
    [(_ & _ & _ & Hcount & _) |
     [(_ & _ & _ & Hcount & _) | (_ & _ & _ & _ & Hcount & _)]]; lia.
Qed.

(** A successful load, with the names in use afterwards. *)
Lemma CreateGLTexture_success_names (filename tag : string) (image : Image)
    (s : SceneManager) :
  registry_ok s ->
  m_loadedTextures s < MAX_TEXTURES ->
  stbi_load filename = Some image ->
  img_channels image = 3 \/ img_channels image = 4 ->
  exists s',
    CreateGLTexture gen_name stbi_load filename tag s = Some (true, s') /\
    registry_ok s' /\
    m_loadedTextures s' = m_loadedTextures s + 1 /\
    entries s' = entries s ++ [mkTexture tag (gen_name (gl_names (world s)))] /\
    gl_names (world s') = gen_name (gl_names (world s)) :: gl_names (world s).
Proof.
  intros Hok Hroom Hload Hch.
  destruct (CreateGLTexture_success gen_name stbi_load filename tag image s
              Hok Hroom Hload Hch) as (s' & Hrun & Hok' & Hcount & Hent).
  exists s'. repeat split; try assumption; try apply Hok'.
  destruct (CreateGLTexture_cases _ _ _ _ _ _ _ Hrun) as (_ & _ & Hcase).
  destruct Hcase as
    [(Hb & _) | [(Hb & _) | (_ & _ & _ & _ & _ & Hnames & _)]];
    [discriminate | discriminate | exact Hnames].
Qed.

End SceneTextureFacts.

(** X9. With four free slots [LoadSceneTextures] always completes, whatever
    the decoder does with the four files: it registers at most four entries,
    keeps every entry registered before at its slot, and leaves the array and
    the count consistent. *)
Theorem LoadSceneTextures_completes
    (gen_name : list GLuint -> GLuint) (stbi_load : string -> option Image)
    (s : SceneManager) :
  registry_ok s ->
  m_loadedTextures s + 4 <= MAX_TEXTURES ->
  exists s',
    LoadSceneTextures gen_name stbi_load s = Some s' /\
    registry_ok s' /\
    entries s `prefix_of` entries s' /\
    m_loadedTextures s <= m_loadedTextures s' <= m_loadedTextures s + 4.
Proof.
  intros Hok Hroom. unfold LoadSceneTextures.
  destruct (CreateGLTexture_step gen_name stbi_load "textures/leaves3.jpg"
              "leaves" s Hok) as (b1 & s1 & Hr1 & Hok1 & Hp1 & Hc1); [lia|].
  destruct (CreateGLTexture_step gen_name stbi_load "textures/leaves.jpg"
              "pineleaves" s1 Hok1) as (b2 & s2 & Hr2 & Hok2 & Hp2 & Hc2);
    [lia|].
  destruct (CreateGLTexture_step gen_name stbi_load "textures/log.jpg"
              "log" s2 Hok2) as (b3 & s3 & Hr3 & Hok3 & Hp3 & Hc3); [lia|].
  destruct (CreateGLTexture_step gen_name stbi_load "textures/stone.jpg"
              "stone" s3 Hok3) as (b4 & s4 & Hr4 & Hok4 & Hp4 & Hc4); [lia|].
  rewrite Hr1. cbn [mbind option_bind]. rewrite Hr2. cbn [mbind option_bind].
  rewrite Hr3. cbn [mbind option_bind]. rewrite Hr4. cbn [mbind option_bind].
  pose proof Hok4 as [Hlen4 Hn4].
  destruct (BindGLTextures_loop (Z.to_nat (m_loadedTextures s4)) 0%nat s4)
    as (s' & Hrun & Harr & Hcount & _); [lia|].
  exists s'. split; [exact Hrun|].
  assert (Hent : entries s' = entries s4).
  { unfold entries. by rewrite Harr, Hcount. }
  split; [unfold registry_ok; by rewrite Harr, Hcount|].
  split; [|lia].
  rewrite Hent. etransitivity; [exact Hp1|]. etransitivity; [exact Hp2|].
  etransitivity; [exact Hp3 | exact Hp4].
Qed.

(** Three of the four files are unreadable: one entry is registered. *)
Lemma LoadSceneTextures_completes_witness :
  registry_ok fresh_scene /\
  exists s',
    LoadSceneTextures next_name
      (fun f => if String.eqb f "textures/log.jpg" then Some (mkImage 2 2 3)
                else None) fresh_scene = Some s' /\
    m_loadedTextures s' = 1 /\
    FindTextureSlot "log" s' = Some 0.
Proof.
  split; [exact fresh_scene_ok|].
  destruct (LoadSceneTextures_completes next_name
              (fun f => if String.eqb f "textures/log.jpg"
                        then Some (mkImage 2 2 3) else None)
              fresh_scene fresh_scene_ok) as (s' & Hrun & _).
  { vm_compute. discriminate. }
  exists s'. split; [exact Hrun|].
  vm_compute in Hrun. injection Hrun as <-. split; reflexivity.
Defined.

(** X10. When the four files decode with 3 or 4 channels,
    [LoadSceneTextures] appends the entries "leaves", "pineleaves", "log" and
    "stone", in this order and with the four names handed out in turn, behind
    the entries registered before; the calls it issues last bind every
    registered entry to the texture unit of its slot. *)
Theorem LoadSceneTextures_registers
    (gen_name : list GLuint -> GLuint) (stbi_load : string -> option Image)
    (i1 i2 i3 i4 : Image) (s : SceneManager) :
  registry_ok s ->
  m_loadedTextures s + 4 <= MAX_TEXTURES ->
  stbi_load "textures/leaves3.jpg" = Some i1 ->
  stbi_load "textures/leaves.jpg" = Some i2 ->
  stbi_load "textures/log.jpg" = Some i3 ->
  stbi_load "textures/stone.jpg" = Some i4 ->
  (forall i, i ∈ [i1; i2; i3; i4] ->
     img_channels i = 3 \/ img_channels i = 4) ->
  exists s' earlier,
    LoadSceneTextures gen_name stbi_load s = Some s' /\
    entries s' =
      entries s ++
        zip_with mkTexture ["leaves"; "pineleaves"; "log"; "stone"]
          (gen_names gen_name 4 (gl_names (world s))) /\
    m_loadedTextures s' = m_loadedTextures s + 4 /\
    gl_calls (world s') = rev (bind_calls 0 (entries s')) ++ earlier.
Proof.
  intros Hok Hroom H1 H2 H3 H4 Hch. unfold LoadSceneTextures.
  destruct (CreateGLTexture_success_names gen_name stbi_load
              "textures/leaves3.jpg" "leaves" i1 s Hok)
    as (s1 & Hr1 & Hok1 & Hc1 & He1 & Hn1);
    [lia | exact H1 | apply Hch; set_solver |].
  destruct (CreateGLTexture_success_names gen_name stbi_load
              "textures/leaves.jpg" "pineleaves" i2 s1 Hok1)
    as (s2 & Hr2 & Hok2 & Hc2 & He2 & Hn2);
    [lia | exact H2 | apply Hch; set_solver |].
  destruct (CreateGLTexture_success_names gen_name stbi_load
              "textures/log.jpg" "log" i3 s2 Hok2)
    as (s3 & Hr3 & Hok3 & Hc3 & He3 & Hn3);
    [lia | exact H3 | apply Hch; set_solver |].
  destruct (CreateGLTexture_success_names gen_name stbi_load
              "textures/stone.jpg" "stone" i4 s3 Hok3)
    as (s4 & Hr4 & Hok4 & Hc4 & He4 & Hn4);
    [lia | exact H4 | apply Hch; set_solver |].
  rewrite Hr1. cbn [mbind option_bind]. rewrite Hr2. cbn [mbind option_bind].
  rewrite Hr3. cbn [mbind option_bind]. rewrite Hr4. cbn [mbind option_bind].
  pose proof Hok4 as [Hlen4 Hn4'].
  destruct (BindGLTextures_loop (Z.to_nat (m_loadedTextures s4)) 0%nat s4)
    as (s' & Hrun & Harr & Hcount & _ & _ & _ & _ & _ & Hcalls); [lia|].
  exists s', (gl_calls (world s4)). split; [exact Hrun|].
  assert (Hent : entries s' = entries s4).
  { unfold entries. by rewrite Harr, Hcount. }
  split; [|split; [lia|]].
  - rewrite Hent, He4, He3, He2, He1, Hn3, Hn2, Hn1.
    rewrite <- !app_assoc. reflexivity.
  - rewrite Hent. exact Hcalls.
Qed.

Lemma LoadSceneTextures_registers_witness :
  registry_ok leaves_scene /\
  exists s',
    LoadSceneTextures next_name (decode_as 3) leaves_scene = Some s' /\
    entries s' =
      [mkTexture "leaves" 1; mkTexture "leaves" 2; mkTexture "pineleaves" 3;
       mkTexture "log" 4; mkTexture "stone" 5].
Proof.
  split; [exact leaves_scene_ok|].
  destruct (LoadSceneTextures_registers next_name (decode_as 3)
              (mkImage 2 2 3) (mkImage 2 2 3) (mkImage 2 2 3) (mkImage 2 2 3)
              leaves_scene leaves_scene_ok)
    as (s' & earlier & Hrun & Hent & _); try reflexivity.
  - vm_compute. discriminate.
  - intros i Hi. left.
    repeat (apply elem_of_cons in Hi as [->|Hi]; [reflexivity|]).
    inversion Hi.
  - exists s'. split; [exact Hrun | exact Hent].
Defined.

(** ** Material catalog: definition and lookup *)

Lemma FindMaterial_scan_app_absent (l k : list OBJECT_MATERIAL) (tag : string)
    (material : OBJECT_MATERIAL) :
  (forall m, m ∈ l -> mat_tag m <> tag) ->
  FindMaterial_scan (l ++ k) tag material = FindMaterial_scan k tag material.
Proof.
  induction l as [|x l IH]; intros Hno; [done|]. simpl.
  destruct (String.eqb_spec (mat_tag x) tag) as [Hx|Hx].
  - exfalso. apply (Hno x); [left | done].
  - apply IH. intros m Hm. apply Hno. by right.
Qed.

(** X11. [DefineObjectMaterials] appends the materials "wood", "greenery" and
    "sky" and replaces nothing: a tag that the catalog had before is answered
    as before, and each of the three tags, when the catalog did not have it,
    is answered with the values defined here. *)
Theorem DefineObjectMaterials_appends
    (tag : string) (material : OBJECT_MATERIAL) (s : SceneManager) :
  m_objectMaterials (DefineObjectMaterials s)
    = m_objectMaterials s ++ [woodMaterial; greeneryMaterial; skyMaterial] /\
  (forall i m,
     m_objectMaterials s !! i = Some m -> mat_tag m = tag ->
     (forall j m', (j < i)%nat -> m_objectMaterials s !! j = Some m' ->
        mat_tag m' <> tag) ->
     FindMaterial tag material (DefineObjectMaterials s)
     = FindMaterial tag material s) /\
  (forall m,
     m ∈ [woodMaterial; greeneryMaterial; skyMaterial] ->
     (forall m', m' ∈ m_objectMaterials s -> mat_tag m' <> mat_tag m) ->
     FindMaterial (mat_tag m) material (DefineObjectMaterials s)
     = (true, mkMaterial (mat_tag material) (diffuseColor m)
                (specularColor m) (shininess m))).
Proof.
  split; [reflexivity|]. split.
  - intros i m Hi Htag Hbefore.
    rewrite (FindMaterial_found tag material s i m Hi Htag Hbefore).
    apply (FindMaterial_found tag material (DefineObjectMaterials s) i m).
    + simpl. by apply lookup_app_l_Some.
    + exact Htag.
    + intros j m' Hj Hm'. apply (Hbefore j m' Hj).
      simpl in Hm'. rewrite lookup_app_l in Hm'; [done|].
      apply lookup_lt_Some in Hi. lia.
  - intros m Hm Hno. unfold FindMaterial. simpl m_objectMaterials.
    rewrite length_app. simpl length.
    replace (length (m_objectMaterials s) + 3 =? 0)%nat with false
      by (symmetry; apply Nat.eqb_neq; lia).
    rewrite (FindMaterial_scan_app_absent _ _ _ _ Hno).
    repeat (apply elem_of_cons in Hm as [->|Hm]; [reflexivity|]).
    inversion Hm.
Qed.

Lemma DefineObjectMaterials_appends_witness :
  FindMaterial "sky" stale_material (DefineObjectMaterials fresh_scene)
  = (true, mkMaterial "" (mkVec3 1 1 1) (mkVec3 (1/10) (1/10) (1/10))
             (15/10)).
Proof.
  apply (proj2 (proj2 (DefineObjectMaterials_appends "sky" stale_material
                         fresh_scene)) skyMaterial).
  - right. right. left.
  - intros m' Hm'. inversion Hm'.
Defined.

(** ** Shader parameter bridge *)

Lemma find_texture_loop_ext (s1 s2 : SceneManager) (tag : string)
    (pick : Z -> TEXTURE_INFO -> Z) (steps : nat) (index : Z) :
  m_textureIDs s1 = m_textureIDs s2 ->
  find_texture_loop s1 tag pick steps index
  = find_texture_loop s2 tag pick steps index.
Proof.
  intros Harr. revert index. induction steps as [|k IH]; intros index; [done|].
  simpl. unfold texture_at. rewrite Harr.
  destruct (index <? 0); [done|].
  destruct (m_textureIDs s2 !! Z.to_nat index) as [e|]; [|done].
  simpl. destruct (String.eqb (tex_tag e) tag); [done | apply IH].
Qed.

(** Under a consistent registry the slot lookup returns: [-1] or the index
    of the first match. *)
Lemma FindTextureSlot_returns (tag : string) (s : SceneManager) :
  registry_ok s ->
  exists slot,
    FindTextureSlot tag s = Some slot /\
    ((slot = -1 /\ no_match tag (entries s)) \/
     (exists i e, first_match tag (entries s) i e /\ slot = Z.of_nat i)).
Proof.
  intros Hok.
  destruct (first_match_or_none tag (entries s)) as [Hno | (i & e & Hfm)].
  - exists (-1). split; [by apply find_texture_no_match|]. by left.
  - exists (Z.of_nat i). split.
    + apply (find_texture_first_match s tag (fun index _ => index) i e Hfm).
    + right. eauto.
Qed.

Ltac uniform_lookup :=
  unfold setUniform;
  repeat (rewrite lookup_insert_ne by discriminate);
  try apply lookup_insert_eq; try reflexivity.

(** X12. For a tag of the catalog, [SetShaderMaterial] uploads the diffuse
    colour, the specular colour and the shininess of the first entry with
    that tag, whatever the uninitialised local holds, and writes no other
    uniform; registry, catalog and context are untouched. *)
Theorem SetShaderMaterial_uploads_first
    (garbage : OBJECT_MATERIAL) (tag : string) (s : SceneManager)
    (sh : ShaderManager) (i : nat) (m : OBJECT_MATERIAL) :
  m_pShaderManager s = Some sh ->
  m_objectMaterials s !! i = Some m -> mat_tag m = tag ->
  (forall j m', (j < i)%nat -> m_objectMaterials s !! j = Some m' ->
     mat_tag m' <> tag) ->
  exists sh',
    SetShaderMaterial garbage tag s = Some (with_shader sh' s) /\
    sh' !! "material.diffuseColor" = Some (UVec3 (diffuseColor m)) /\
    sh' !! "material.specularColor" = Some (UVec3 (specularColor m)) /\
    sh' !! "material.shininess" = Some (UFloat (shininess m)) /\
    forall name : string,
      name <> "material.diffuseColor" -> name <> "material.specularColor" ->
      name <> "material.shininess" ->
      sh' !! name = sh !! name.
Proof.
  intros Hsh Hi Htag Hbefore.
  exists (upload_material m sh).
  split; [by apply (SetShaderMaterial_found garbage tag s sh i m)|].
  destruct (upload_material_lookup m sh) as (Ha & Hb & Hc).
  split; [exact Ha|]. split; [exact Hb|]. split; [exact Hc|].
  intros name H1 H2 H3. unfold upload_material, setUniform.
  rewrite !lookup_insert_ne by done. reflexivity.
Qed.

Lemma SetShaderMaterial_uploads_first_witness :
  m_pShaderManager materials_scene = Some ∅ /\
  exists sh',
    SetShaderMaterial stale_material "greenery" materials_scene
      = Some (with_shader sh' materials_scene) /\
    sh' !! "material.shininess" = Some (UFloat (125/100)) /\
    sh' !! "model" = None.
Proof.
  split; [reflexivity|].
  destruct (SetShaderMaterial_uploads_first stale_material "greenery"
              materials_scene ∅ 1%nat greeneryMaterial)
    as (sh' & Hrun & _ & _ & Hshin & Hframe); try reflexivity.
  - intros j m' Hj Hm'. destruct j as [|j]; [|lia].
    injection Hm' as <-. discriminate.
  - exists sh'. split; [exact Hrun|]. split; [exact Hshin|].
    rewrite Hframe by discriminate. reflexivity.
Defined.

(** X13. Without a shader manager, [SetTransformations], [SetShaderColor],
    [SetShaderTexture] and [SetTextureUVScale] do nothing.
    [SetShaderMaterial] has no such test: it does nothing on an empty
    catalog and calls through the null pointer on any other. *)
Theorem setters_without_shader_manager
    (garbage : OBJECT_MATERIAL) (tag : string) (k t : vec3)
    (rx ry rz r g b a u v : R) (s : SceneManager) :
  m_pShaderManager s = None ->
  SetTransformations k rx ry rz t s = s /\
  SetShaderColor r g b a s = s /\
  SetShaderTexture tag s = Some s /\
  SetTextureUVScale u v s = s /\
  (m_objectMaterials s = [] -> SetShaderMaterial garbage tag s = Some s) /\
  (m_objectMaterials s <> [] -> SetShaderMaterial garbage tag s = None).
Proof.
  intros Hnull.
  unfold SetTransformations, SetShaderColor, SetShaderTexture,
    SetTextureUVScale. rewrite Hnull. repeat split.
  - intros Hempty. by apply SetShaderMaterial_empty.
  - intros Hne. unfold SetShaderMaterial, FindMaterial.
    destruct (m_objectMaterials s) as [|m l]; [done|].
    simpl. by rewrite Hnull.
Qed.

Lemma setters_without_shader_manager_witness :
  m_pShaderManager detached_scene = None /\
  SetShaderTexture "stone" detached_scene = Some detached_scene /\
  SetShaderMaterial stale_material "wood" detached_scene = None.
Proof.
  destruct (setters_without_shader_manager stale_material "wood"
              (mkVec3 1 1 1) (mkVec3 0 0 0) 0 0 0 0 0 0 1 1 1 detached_scene
              eq_refl) as (_ & _ & _ & _ & _ & Hmat).
  destruct (setters_without_shader_manager stale_material "stone"
              (mkVec3 1 1 1) (mkVec3 0 0 0) 0 0 0 0 0 0 1 1 1 detached_scene
              eq_refl) as (_ & _ & Htex & _).
  split; [reflexivity|]. split; [exact Htex|].
  apply Hmat. discriminate.
Defined.

(** X14. [SetShaderTexture] switches texturing on and uploads, as the
    sampler, the slot of the first entry with the tag; for a tag that is not
    registered it still switches texturing on and uploads the sampler [-1].
    No other uniform is written. *)
Theorem SetShaderTexture_uploads_slot
    (tag : string) (s : SceneManager) (sh : ShaderManager) :
  registry_ok s ->
  m_pShaderManager s = Some sh ->
  exists slot sh',
    SetShaderTexture tag s = Some (with_shader sh' s) /\
    sh' !! "bUseTexture" = Some (UInt 1) /\
    sh' !! "objectTexture" = Some (USampler slot) /\
    ((slot = -1 /\ no_match tag (entries s)) \/
     (exists i e, first_match tag (entries s) i e /\ slot = Z.of_nat i)) /\
    forall name : string,
      name <> "bUseTexture" -> name <> "objectTexture" ->
      sh' !! name = sh !! name.
Proof.
  intros Hok Hsh.
  destruct (FindTextureSlot_returns tag s Hok) as (slot & Hslot & Hwhich).
  exists slot. eexists. unfold SetShaderTexture. rewrite Hsh, Hslot.
  split; [reflexivity|].
  split; [uniform_lookup|]. split; [uniform_lookup|].
  split; [exact Hwhich|].
  intros name H1 H2. unfold setUniform.
  rewrite !lookup_insert_ne by done. reflexivity.
Qed.

Lemma SetShaderTexture_uploads_slot_witness :
  registry_ok leaves_scene /\ m_pShaderManager leaves_scene = Some ∅ /\
  exists sh',
    SetShaderTexture "stone" leaves_scene = Some (with_shader sh' leaves_scene) /\
    sh' !! "bUseTexture" = Some (UInt 1) /\
    sh' !! "objectTexture" = Some (USampler (-1)).
Proof.
  split; [exact leaves_scene_ok|]. split; [reflexivity|].
  destruct (SetShaderTexture_uploads_slot "stone" leaves_scene ∅
              leaves_scene_ok eq_refl)
    as (slot & sh' & Hrun & Hb & Hs & Hwhich & _).
  exists sh'. split; [exact Hrun|]. split; [exact Hb|].
  destruct Hwhich as [[-> _] | (i & e & (He & Ht & _) & _)]; [exact Hs|].
  exfalso. destruct i as [|i]; [|by destruct i].
  injection He as <-. discriminate.
Defined.

(** X15. Between [SetShaderColor] and [SetShaderTexture] the later call
    decides whether the next draw is textured: colour then texture leaves
    texturing on and the colour in place; texture then colour leaves
    texturing off and the sampler in place. *)
Theorem color_texture_last_call_wins
    (tag : string) (r g b a : R) (s : SceneManager) (sh : ShaderManager) :
  registry_ok s ->
  m_pShaderManager s = Some sh ->
  (exists sh1,
     SetShaderTexture tag (SetShaderColor r g b a s)
       = Some (with_shader sh1 s) /\
     sh1 !! "bUseTexture" = Some (UInt 1) /\
     sh1 !! "objectColor" = Some (UVec4 (mkVec4 r g b a))) /\
  (exists s2 sh2 slot,
     SetShaderTexture tag s = Some s2 /\
     FindTextureSlot tag s = Some slot /\
     SetShaderColor r g b a s2 = with_shader sh2 s /\
     sh2 !! "bUseTexture" = Some (UInt 0) /\
     sh2 !! "objectColor" = Some (UVec4 (mkVec4 r g b a)) /\
     sh2 !! "objectTexture" = Some (USampler slot)).
Proof.
  intros Hok Hsh.
  destruct (FindTextureSlot_returns tag s Hok) as (slot & Hslot & _).
  split.
  - eexists. unfold SetShaderColor. rewrite Hsh.
    unfold SetShaderTexture. cbn [with_shader m_pShaderManager].
    replace (FindTextureSlot tag _) with (Some slot).
    + cbn [mbind option_bind]. split; [reflexivity|].
      split; uniform_lookup.
    + rewrite <- Hslot. unfold FindTextureSlot.
      cbn [m_loadedTextures]. by apply find_texture_loop_ext.
  - eexists. eexists. exists slot. unfold SetShaderTexture.
    rewrite Hsh, Hslot. cbn [mbind option_bind].
    split; [reflexivity|]. split; [reflexivity|].
    unfold SetShaderColor. cbn [with_shader m_pShaderManager].
    split; [reflexivity|]. repeat split; uniform_lookup.
Qed.

Lemma color_texture_last_call_wins_witness :
  registry_ok leaves_scene /\ m_pShaderManager leaves_scene = Some ∅ /\
  exists sh1,
    SetShaderTexture "leaves" (SetShaderColor (1/2) (1/2) (1/2) 1 leaves_scene)
      = Some (with_shader sh1 leaves_scene) /\
    sh1 !! "bUseTexture" = Some (UInt 1).
Proof.
  split; [exact leaves_scene_ok|]. split; [reflexivity|].
  destruct (proj1 (color_texture_last_call_wins "leaves" (1/2) (1/2) (1/2) 1
                     leaves_scene ∅ leaves_scene_ok eq_refl))
    as (sh1 & Hrun & Hb & _).
  exists sh1. split; [exact Hrun | exact Hb].
Defined.

(** ** Model matrix: action on points *)

Section ModelMatrixFacts.
Local Open Scope R_scope.

Ltac point_eq :=
  unfold glm.mul_vec, scaling_matrix, rotation_x_matrix, rotation_y_matrix,
    rotation_z_matrix, translation_matrix, scale_point, rotate_x_point,
    rotate_y_point, rotate_z_point, translate_point, v4add, v4scale;
  cbn [v4x v4y v4z v4w v3x v3y v3z col0 col1 col2 col3]; vec_eq.

Lemma scaling_matrix_point (k : vec3) (p : vec4) :
  glm.mul_vec (scaling_matrix k) p = scale_point k p.
Proof. point_eq. Qed.

Lemma rotation_x_matrix_point (a : R) (p : vec4) :
  glm.mul_vec (rotation_x_matrix a) p = rotate_x_point a p.
Proof. point_eq. Qed.

Lemma rotation_y_matrix_point (a : R) (p : vec4) :
  glm.mul_vec (rotation_y_matrix a) p = rotate_y_point a p.
Proof. point_eq. Qed.

Lemma rotation_z_matrix_point (a : R) (p : vec4) :
  glm.mul_vec (rotation_z_matrix a) p = rotate_z_point a p.
Proof. point_eq. Qed.

Lemma translation_matrix_point (t : vec3) (p : vec4) :
  glm.mul_vec (translation_matrix t) p = translate_point t p.
Proof. point_eq. Qed.

(** The model matrix scales, turns about X, Y and Z, and translates. *)
Lemma modelView_point (k : vec3) (rx ry rz : R) (t : vec3) (p : vec4) :
  glm.mul_vec (modelView k rx ry rz t) p =
  translate_point t
    (rotate_z_point (glm.radians rz)
       (rotate_y_point (glm.radians ry)
          (rotate_x_point (glm.radians rx) (scale_point k p)))).
Proof.
  rewrite modelView_textbook, !mul_vec_mul.
  by rewrite scaling_matrix_point, rotation_x_matrix_point,
    rotation_y_matrix_point, rotation_z_matrix_point,
    translation_matrix_point.
Qed.

Lemma radians_0 : glm.radians 0 = 0.
Proof. unfold glm.radians. ring. Qed.

Lemma radians_180 : glm.radians 180 = PI.
Proof. unfold glm.radians. field. Qed.

Lemma rotate_x_point_0 (p : vec4) : rotate_x_point 0 p = p.
Proof.
  unfold rotate_x_point. rewrite cos_0, sin_0. destruct p.
  cbn [v4x v4y v4z v4w]. vec_eq.
Qed.

Lemma rotate_y_point_0 (p : vec4) : rotate_y_point 0 p = p.
Proof.
  unfold rotate_y_point. rewrite cos_0, sin_0. destruct p.
  cbn [v4x v4y v4z v4w]. vec_eq.
Qed.

Lemma rotate_z_point_0 (p : vec4) : rotate_z_point 0 p = p.
Proof.
  unfold rotate_z_point. rewrite cos_0, sin_0. destruct p.
  cbn [v4x v4y v4z v4w]. vec_eq.
Qed.

(** A rotation keeps the scalar product of the spatial parts. *)
Lemma rotate_x_point_dot (a : R) (p q : vec4) :
  dot (vec3_of_vec4 (rotate_x_point a p)) (vec3_of_vec4 (rotate_x_point a q))
  = dot (vec3_of_vec4 p) (vec3_of_vec4 q).
Proof.
  destruct p as [x1 y1 z1 w1], q as [x2 y2 z2 w2].
  unfold rotate_x_point, vec3_of_vec4, dot.
  cbn [v4x v4y v4z v4w v3x v3y v3z].
  pose proof (sin2_cos2 a) as H. unfold Rsqr in H.
  transitivity (x1 * x2 + (y1 * y2 + z1 * z2)
                          * (sin a * sin a + cos a * cos a)); [ring|].
  rewrite H. ring.
Qed.

Lemma rotate_y_point_dot (a : R) (p q : vec4) :
  dot (vec3_of_vec4 (rotate_y_point a p)) (vec3_of_vec4 (rotate_y_point a q))
  = dot (vec3_of_vec4 p) (vec3_of_vec4 q).
Proof.
  destruct p as [x1 y1 z1 w1], q as [x2 y2 z2 w2].
  unfold rotate_y_point, vec3_of_vec4, dot.
  cbn [v4x v4y v4z v4w v3x v3y v3z].
  pose proof (sin2_cos2 a) as H. unfold Rsqr in H.
  transitivity (y1 * y2 + (x1 * x2 + z1 * z2)
                          * (sin a * sin a + cos a * cos a)); [ring|].
  rewrite H. ring.
Qed.

Lemma rotate_z_point_dot (a : R) (p q : vec4) :
  dot (vec3_of_vec4 (rotate_z_point a p)) (vec3_of_vec4 (rotate_z_point a q))
  = dot (vec3_of_vec4 p) (vec3_of_vec4 q).
Proof.
  destruct p as [x1 y1 z1 w1], q as [x2 y2 z2 w2].
  unfold rotate_z_point, vec3_of_vec4, dot.
  cbn [v4x v4y v4z v4w v3x v3y v3z].
  pose proof (sin2_cos2 a) as H. unfold Rsqr in H.
  transitivity (z1 * z2 + (x1 * x2 + y1 * y2)
                          * (sin a * sin a + cos a * cos a)); [ring|].
  rewrite H. ring.
Qed.

End ModelMatrixFacts.

(** X16. Without rotation the model matrix scales each axis and then
    translates: the point (x,y,z,w) goes to
    (sx*x + tx*w, sy*y + ty*w, sz*z + tz*w, w). *)
Theorem modelView_unrotated (scaleXYZ positionXYZ : vec3) (x y z w : R) :
  glm.mul_vec (modelView scaleXYZ 0 0 0 positionXYZ) (mkVec4 x y z w) =
  mkVec4 (v3x scaleXYZ * x + v3x positionXYZ * w)
         (v3y scaleXYZ * y + v3y positionXYZ * w)
         (v3z scaleXYZ * z + v3z positionXYZ * w) w.
Proof.
  rewrite modelView_point, radians_0.
  rewrite rotate_x_point_0, rotate_y_point_0, rotate_z_point_0.
  reflexivity.
Qed.

(** X17. With a rotation of 180 degrees about Y, the one [DrawMountain]
    uses, the model matrix mirrors X and Z: the point (x,y,z,w) goes to
    (tx*w - sx*x, sy*y + ty*w, tz*w - sz*z, w). *)
Theorem modelView_half_turn_y (scaleXYZ positionXYZ : vec3) (x y z w : R) :
  glm.mul_vec (modelView scaleXYZ 0 180 0 positionXYZ) (mkVec4 x y z w) =
  mkVec4 (v3x positionXYZ * w - v3x scaleXYZ * x)
         (v3y scaleXYZ * y + v3y positionXYZ * w)
         (v3z positionXYZ * w - v3z scaleXYZ * z) w.
Proof.
  rewrite modelView_point, radians_0, radians_180.
  rewrite rotate_x_point_0, rotate_z_point_0.
  unfold rotate_y_point. rewrite cos_PI, sin_PI.
  unfold translate_point, scale_point.
  cbn [v4x v4y v4z v4w]. vec_eq.
Qed.

(** X18. Moving the position by [d] moves every transformed point by [d]
    (times its [w]), at any scale and any angles: a shape drawn at another
    position is the same shape, shifted. *)
Theorem modelView_position_shift
    (scaleXYZ : vec3) (Xdeg Ydeg Zdeg : R) (positionXYZ d : vec3) (p : vec4) :
  glm.mul_vec (modelView scaleXYZ Xdeg Ydeg Zdeg (v3add positionXYZ d)) p =
  v4add (glm.mul_vec (modelView scaleXYZ Xdeg Ydeg Zdeg positionXYZ) p)
        (mkVec4 (v3x d * v4w p) (v3y d * v4w p) (v3z d * v4w p) 0).
Proof.
  rewrite !modelView_point.
  set (q := rotate_z_point _ _).
  assert (Hw : v4w q = v4w p) by reflexivity.
  clearbody q. destruct q as [qx qy qz qw]. cbn [v4w] in Hw. subst qw.
  unfold translate_point, v3add, v4add.
  cbn [v4x v4y v4z v4w v3x v3y v3z]. vec_eq.
Qed.

(** X19. With the same scale [c] on the three axes, as [DrawMountain] and the
    tiers of [DrawPyramidTree] have it, the model matrix is a similarity:
    at any angles and any position, the scalar product of two transformed
    directions is [c*c] times the scalar product of the directions. *)
Theorem modelView_uniform_scale
    (c Xdeg Ydeg Zdeg : R) (positionXYZ : vec3) (x1 y1 z1 x2 y2 z2 : R) :
  dot (vec3_of_vec4
         (glm.mul_vec (modelView (mkVec3 c c c) Xdeg Ydeg Zdeg positionXYZ)
            (mkVec4 x1 y1 z1 0)))
      (vec3_of_vec4
         (glm.mul_vec (modelView (mkVec3 c c c) Xdeg Ydeg Zdeg positionXYZ)
            (mkVec4 x2 y2 z2 0)))
  = (c * c * dot (mkVec3 x1 y1 z1) (mkVec3 x2 y2 z2))%R.
Proof.
  rewrite !modelView_point.
  set (u := rotate_z_point _ (rotate_y_point _ (rotate_x_point _
              (scale_point _ (mkVec4 x1 y1 z1 0))))).
  set (v := rotate_z_point _ (rotate_y_point _ (rotate_x_point _
              (scale_point _ (mkVec4 x2 y2 z2 0))))).
  assert (Hu : v4w u = 0%R) by reflexivity.
  assert (Hv : v4w v = 0%R) by reflexivity.
  transitivity (dot (vec3_of_vec4 u) (vec3_of_vec4 v)).
  { clearbody u v. destruct u as [ux uy uz uw], v as [vx vy vz vw].
    cbn [v4w] in Hu, Hv. subst uw vw.
    unfold translate_point, vec3_of_vec4, dot.
    cbn [v4x v4y v4z v4w v3x v3y v3z]. ring. }
  subst u v.
  rewrite rotate_z_point_dot, rotate_y_point_dot, rotate_x_point_dot.
  unfold scale_point, vec3_of_vec4, dot.
  cbn [v4x v4y v4z v4w v3x v3y v3z]. ring.
Qed.

(** X20. [SetTransformations] keeps no history: a second call replaces the
    matrix of the first, so the result is that of the second call alone, and
    no uniform other than [model] is written. *)
Theorem SetTransformations_overwrites
    (k1 k2 t1 t2 : vec3) (rx1 ry1 rz1 rx2 ry2 rz2 : R)
    (s : SceneManager) (sh : ShaderManager) :
  m_pShaderManager s = Some sh ->
  SetTransformations k2 rx2 ry2 rz2 t2
    (SetTransformations k1 rx1 ry1 rz1 t1 s)
  = SetTransformations k2 rx2 ry2 rz2 t2 s /\
  exists sh',
    SetTransformations k2 rx2 ry2 rz2 t2 s = with_shader sh' s /\
    sh' !! "model" = Some (UMat4 (modelView k2 rx2 ry2 rz2 t2)) /\
    forall name : string, name <> "model" -> sh' !! name = sh !! name.
Proof.
  intros Hsh. unfold SetTransformations. rewrite Hsh.
  cbn [with_shader m_pShaderManager]. split.
  - unfold with_shader, setUniform. cbn. by rewrite insert_insert_eq.
  - eexists. split; [reflexivity|]. split; [uniform_lookup|].
    intros name Hne. unfold setUniform. by rewrite lookup_insert_ne.
Qed.

Lemma SetTransformations_overwrites_witness :
  m_pShaderManager fresh_scene = Some ∅ /\
  SetTransformations (mkVec3 1 1 1) 0 180 0 (mkVec3 0 0 0)
    (SetTransformations (mkVec3 2 3 4) 0 0 0 (mkVec3 5 6 7) fresh_scene)
  = SetTransformations (mkVec3 1 1 1) 0 180 0 (mkVec3 0 0 0) fresh_scene.
Proof.
  split; [reflexivity|].
  exact (proj1 (SetTransformations_overwrites (mkVec3 2 3 4) (mkVec3 1 1 1)
                  (mkVec3 5 6 7) (mkVec3 0 0 0) 0 0 0 0 180 0 fresh_scene ∅
                  eq_refl)).
Defined.

(** ** Lighting stage: the lit path *)

Section LitFacts.
Local Open Scope R_scope.

Variable texture : Z -> vec2 -> vec4.
Variable pow : R -> R -> R.

(** The sum over the point lights when none is active. *)
Lemma point_lights_all_off (u : Shader.Uniforms) (frag : Shader.Fragment)
    (norm viewDir acc : vec3) :
  (forall i, (i < Shader.TOTAL_POINT_LIGHTS)%nat ->
     Shader.pl_bActive (Shader.pointLights u i) = false) ->
  fold_left
    (fun phongResult i =>
       if Shader.pl_bActive (Shader.pointLights u i)
       then v3add phongResult
              (Shader.CalcPointLight texture pow u frag
                 (Shader.pointLights u i) norm
                 (Shader.fragmentPosition frag) viewDir)
       else phongResult)
    (seq 0 Shader.TOTAL_POINT_LIGHTS) acc = acc.
Proof.
  intros Hoff. unfold Shader.TOTAL_POINT_LIGHTS in *. cbn [seq fold_left].
  rewrite (Hoff 0%nat), (Hoff 1%nat), (Hoff 2%nat), (Hoff 3%nat),
    (Hoff 4%nat) by lia.
  reflexivity.
Qed.

(** A light that is replaced by itself, or that is inactive before and
    after, adds the same to the sum over the point lights. *)
Lemma point_lights_same (u : Shader.Uniforms) (frag : Shader.Fragment)
    (dl : Shader.DirectionalLight) (pls : nat -> Shader.PointLight)
    (sl : Shader.SpotLight) (norm viewDir acc : vec3) (l : list nat) :
  (forall i, i ∈ l ->
     pls i = Shader.pointLights u i \/
     (Shader.pl_bActive (pls i) = false /\
      Shader.pl_bActive (Shader.pointLights u i) = false)) ->
  fold_left
    (fun phongResult i =>
       if Shader.pl_bActive (Shader.pointLights (set_lights dl pls sl u) i)
       then v3add phongResult
              (Shader.CalcPointLight texture pow (set_lights dl pls sl u) frag
                 (Shader.pointLights (set_lights dl pls sl u) i) norm
                 (Shader.fragmentPosition frag) viewDir)
       else phongResult) l acc
  = fold_left
    (fun phongResult i =>
       if Shader.pl_bActive (Shader.pointLights u i)
       then v3add phongResult
              (Shader.CalcPointLight texture pow u frag
                 (Shader.pointLights u i) norm
                 (Shader.fragmentPosition frag) viewDir)
       else phongResult) l acc.
Proof.
  revert acc. induction l as [|i l IH]; intros acc Hl; [done|].
  cbn [fold_left]. rewrite IH by (intros j Hj; apply Hl; by right).
  f_equal. cbn [set_lights Shader.pointLights].
  destruct (Hl i) as [-> | [-> ->]]; [left | reflexivity | reflexivity].
Qed.


End LitFacts.

(** X21. With lighting switched on and no light active, the fragment is
    black; its alpha is the alpha of the texel when texturing and of
    [objectColor] otherwise. *)
Theorem main_no_active_light
    (texture : Z -> vec2 -> vec4) (pow : R -> R -> R)
    (u : Shader.Uniforms) (frag : Shader.Fragment) :
  Shader.bUseLighting u = true ->
  Shader.dl_bActive (Shader.directionalLight u) = false ->
  (forall i, (i < Shader.TOTAL_POINT_LIGHTS)%nat ->
     Shader.pl_bActive (Shader.pointLights u i) = false) ->
  Shader.sl_bActive (Shader.spotLight u) = false ->
  Shader.main texture pow u frag =
  mkVec4 0 0 0
    (if Shader.bUseTexture u then v4w (Shader.sampled texture u frag)
     else v4w (Shader.objectColor u)).
Proof.
  intros Hlit Hdl Hpl Hsl. unfold Shader.main.
  rewrite Hlit, Hdl, Hsl.
  rewrite (point_lights_all_off texture pow u frag _ _ _ Hpl).
  destruct (Shader.bUseTexture u); reflexivity.
Qed.

Lemma main_no_active_light_witness :
  Shader.bUseLighting dark_uniforms = true /\
  Shader.main white_texture Rpower dark_uniforms origin_fragment
  = mkVec4 0 0 0 1.
Proof.
  split; [reflexivity|].
  apply (main_no_active_light white_texture Rpower dark_uniforms
           origin_fragment); try reflexivity.
Defined.

(** X22. A light that is not active has no effect on the fragment: replacing
    the parameters of the directional light, of any point light and of the
    spot light leaves the output as it is, for every light that is inactive
    before and after the replacement. *)
Theorem main_ignores_inactive_lights
    (texture : Z -> vec2 -> vec4) (pow : R -> R -> R)
    (u : Shader.Uniforms) (frag : Shader.Fragment)
    (dl : Shader.DirectionalLight) (pls : nat -> Shader.PointLight)
    (sl : Shader.SpotLight) :
  (dl = Shader.directionalLight u \/
   (Shader.dl_bActive dl = false /\
    Shader.dl_bActive (Shader.directionalLight u) = false)) ->
  (forall i, (i < Shader.TOTAL_POINT_LIGHTS)%nat ->
     pls i = Shader.pointLights u i \/
     (Shader.pl_bActive (pls i) = false /\
      Shader.pl_bActive (Shader.pointLights u i) = false)) ->
  (sl = Shader.spotLight u \/
   (Shader.sl_bActive sl = false /\
    Shader.sl_bActive (Shader.spotLight u) = false)) ->
  Shader.main texture pow (set_lights dl pls sl u) frag
  = Shader.main texture pow u frag.
Proof.
  intros Hdl Hpl Hsl. unfold Shader.main.
  rewrite (point_lights_same texture pow u frag dl pls sl).
  2:{ intros i Hi. apply Hpl. apply elem_of_seq in Hi. lia. }
  cbn [set_lights Shader.bUseLighting Shader.bUseTexture
       Shader.directionalLight Shader.spotLight Shader.objectColor
       Shader.viewPosition].
  destruct (Shader.bUseLighting u); [|reflexivity].
  destruct Hdl as [-> | [-> ->]], Hsl as [-> | [-> ->]]; reflexivity.
Qed.

Lemma main_ignores_inactive_lights_witness :
  Shader.main white_texture Rpower
    (set_lights sun (fun _ => move_point_light (mkVec3 0 0 0) 2 point_off)
       (Shader.mkSpotLight (mkVec3 3 3 3) (mkVec3 0 1 0) 1 0 1 1 1
          (mkVec3 0 0 0) (mkVec3 0 0 0) (mkVec3 0 0 0) false)
       sun_uniforms)
    origin_fragment
  = Shader.main white_texture Rpower sun_uniforms origin_fragment.
Proof.
  apply (main_ignores_inactive_lights white_texture Rpower sun_uniforms
           origin_fragment).
  - left. reflexivity.
  - intros i _. right. split; reflexivity.
  - right. split; reflexivity.
Defined.

(** X23. The alpha of the fragment never depends on the lights, the material
    or the lighting switch: it is the alpha of the texel when texturing and
    the alpha of [objectColor] otherwise. *)
Theorem main_alpha
    (texture : Z -> vec2 -> vec4) (pow : R -> R -> R)
    (u : Shader.Uniforms) (frag : Shader.Fragment) :
  v4w (Shader.main texture pow u frag) =
  if Shader.bUseTexture u then v4w (Shader.sampled texture u frag)
  else v4w (Shader.objectColor u).
Proof.
  unfold Shader.main.
  destruct (Shader.bUseLighting u), (Shader.bUseTexture u); reflexivity.
Qed.



(** X25. Only the direction of the directional light counts, not the length
    of its direction vector: stretching the vector by a positive factor
    leaves the contribution as it is. *)
Theorem CalcDirectionalLight_direction_length
    (texture : Z -> vec2 -> vec4) (pow : R -> R -> R)
    (u : Shader.Uniforms) (frag : Shader.Fragment)
    (light : Shader.DirectionalLight) (normal viewDir : vec3) (k : R) :
  (0 < k)%R ->
  Shader.CalcDirectionalLight texture pow u frag (stretch_direction k light)
    normal viewDir
  = Shader.CalcDirectionalLight texture pow u frag light normal viewDir.
Proof.
  intros Hk. unfold Shader.CalcDirectionalLight.
  cbn [stretch_direction Shader.dl_direction Shader.dl_ambient
       Shader.dl_diffuse Shader.dl_specular].
  replace (v3neg (v3scale (Shader.dl_direction light) k))
    with (v3scale (v3neg (Shader.dl_direction light)) k).
  - rewrite normalize_scale by exact Hk. reflexivity.
  - destruct (Shader.dl_direction light). unfold v3neg, v3scale.
    cbn [v3x v3y v3z]. vec_eq.
Qed.

Lemma CalcDirectionalLight_direction_length_witness :
  (0 < 4)%R /\
  Shader.CalcDirectionalLight white_texture Rpower sun_uniforms
    origin_fragment (stretch_direction 4 sun) (mkVec3 0 0 1) (mkVec3 0 0 1)
  = Shader.CalcDirectionalLight white_texture Rpower sun_uniforms
      origin_fragment sun (mkVec3 0 0 1) (mkVec3 0 0 1).
Proof.
  assert (H4 : (0 < 4)%R) by lra.
  split; [exact H4|].
  exact (CalcDirectionalLight_direction_length white_texture Rpower
           sun_uniforms origin_fragment sun (mkVec3 0 0 1) (mkVec3 0 0 1)
           4%R H4).
Defined.

(** X26. One active directional light without ambient and specular part, no
    other light active, no texturing: the colour of the fragment is, channel
    by channel, [light.diffuse * diff * material.diffuseColor * objectColor]
    with [diff = max(dot(normal, lightDir), 0)] for the normalised normal and
    the normalised direction towards the light; in particular it is black
    where the surface faces away from the light. *)
Theorem main_directional_diffuse_only
    (texture : Z -> vec2 -> vec4) (pow : R -> R -> R)
    (u : Shader.Uniforms) (frag : Shader.Fragment) :
  Shader.bUseLighting u = true ->
  Shader.bUseTexture u = false ->
  Shader.dl_bActive (Shader.directionalLight u) = true ->
  Shader.dl_ambient (Shader.directionalLight u) = mkVec3 0 0 0 ->
  Shader.dl_specular (Shader.directionalLight u) = mkVec3 0 0 0 ->
  (forall i, (i < Shader.TOTAL_POINT_LIGHTS)%nat ->
     Shader.pl_bActive (Shader.pointLights u i) = false) ->
  Shader.sl_bActive (Shader.spotLight u) = false ->
  let diff :=
    Rmax (dot (normalize (Shader.fragmentVertexNormal frag))
            (normalize (v3neg (Shader.dl_direction (Shader.directionalLight u)))))
      0 in
  let tint :=
    v3mul (v3mul (Shader.dl_diffuse (Shader.directionalLight u))
             (Shader.m_diffuseColor (Shader.material u)))
      (vec3_of_vec4 (Shader.objectColor u)) in
  Shader.main texture pow u frag
    = vec4_of_vec3 (v3scale tint diff) (v4w (Shader.objectColor u)) /\
  ((dot (normalize (Shader.fragmentVertexNormal frag))
      (normalize (v3neg (Shader.dl_direction (Shader.directionalLight u))))
    <= 0)%R ->
   Shader.main texture pow u frag
     = mkVec4 0 0 0 (v4w (Shader.objectColor u))).
Proof.
  intros Hlit Htex Hact Hamb Hspec Hpl Hsl diff tint.
  assert (Hmain : Shader.main texture pow u frag
            = vec4_of_vec3 (v3scale tint diff) (v4w (Shader.objectColor u))).
  { unfold Shader.main. rewrite Hlit, Hact, Hsl, Htex.
    rewrite (point_lights_all_off texture pow u frag _ _ _ Hpl).
    unfold Shader.CalcDirectionalLight. rewrite Htex, Hamb, Hspec.
    fold diff. generalize diff. intros d.
    match goal with
    | |- context [pow ?a ?b] => generalize (pow a b)
    end. intros sp.
    subst tint.
    destruct (Shader.dl_diffuse (Shader.directionalLight u)) as [lx ly lz],
      (Shader.m_diffuseColor (Shader.material u)) as [mx my mz],
      (Shader.m_specularColor (Shader.material u)) as [sx sy sz],
      (Shader.objectColor u) as [cx cy cz ca].
    unfold vec4_of_vec3, vec3_of_vec4, v3add, v3mul, v3scale.
    cbn [v3x v3y v3z v4x v4y v4z v4w]. vec_eq. }
  split; [exact Hmain|].
  intros Haway. rewrite Hmain. subst diff.
  rewrite Rmax_right by exact Haway.
  destruct tint as [tx ty tz]. unfold vec4_of_vec3, v3scale.
  cbn [v3x v3y v3z]. vec_eq.
Qed.

Lemma main_directional_diffuse_only_witness :
  Shader.bUseLighting sun_uniforms = true /\
  Shader.main white_texture Rpower sun_uniforms origin_fragment
  = mkVec4 1 1 1 1.
Proof.
  split; [reflexivity|].
  destruct (main_directional_diffuse_only white_texture Rpower sun_uniforms
              origin_fragment) as [Hmain _]; try reflexivity.
  rewrite Hmain.
  cbn [sun_uniforms sun origin_fragment Shader.fragmentVertexNormal
       Shader.directionalLight Shader.dl_direction Shader.dl_diffuse
       Shader.material Shader.m_diffuseColor Shader.objectColor].
  rewrite !normalize_unit
    by (unfold dot, v3neg; cbn [v3x v3y v3z]; ring).
  unfold dot, v3neg, v3mul, v3scale, vec3_of_vec4, vec4_of_vec3.
  cbn [v3x v3y v3z v4x v4y v4z v4w].
  replace (0 * - 0 + 0 * - 0 + 1 * - -1)%R with 1%R by ring.
  rewrite Rmax_left by lra. vec_eq.
Defined.

(** ** Scene composer: one step at a time *)

Lemma with_shader_id (s : SceneManager) (sh : ShaderManager) :
  m_pShaderManager s = Some sh -> with_shader sh s = s.
Proof. destruct s. simpl. intros ->. reflexivity. Qed.

Lemma eval_transform (k : vec3) (rx ry rz : R) (t : vec3)
    (sh : ShaderManager) (s : SceneManager) (log : list DrawCall) :
  set (SetTransformations k rx ry rz t) (with_shader sh s, log)
  = Some (with_shader (u_model (modelView k rx ry rz t) sh) s, log).
Proof. reflexivity. Qed.

Lemma eval_color (r g b a : R)
    (sh : ShaderManager) (s : SceneManager) (log : list DrawCall) :
  set (SetShaderColor r g b a) (with_shader sh s, log)
  = Some (with_shader (u_color r g b a sh) s, log).
Proof. reflexivity. Qed.

Lemma eval_texture (tag : string) (slot : Z)
    (sh : ShaderManager) (s : SceneManager) (log : list DrawCall) :
  FindTextureSlot tag s = Some slot ->
  set_opt (SetShaderTexture tag) (with_shader sh s, log)
  = Some (with_shader (u_texture slot sh) s, log).
Proof.
  intros Hslot. unfold set_opt, SetShaderTexture.
  cbn [fst snd with_shader m_pShaderManager].
  replace (FindTextureSlot tag _) with (Some slot); [reflexivity|].
  rewrite <- Hslot. unfold FindTextureSlot. cbn [m_loadedTextures].
  by apply find_texture_loop_ext.
Qed.

Lemma eval_material (garbage : OBJECT_MATERIAL) (tag : string)
    (sh : ShaderManager) (s : SceneManager) (log : list DrawCall) :
  set_opt (SetShaderMaterial garbage tag) (with_shader sh s, log)
  = Some (with_shader (u_material (m_objectMaterials s) garbage tag sh) s, log).
Proof.
  unfold set_opt, SetShaderMaterial, FindMaterial, u_material.
  cbn [fst snd with_shader m_pShaderManager m_objectMaterials].
  destruct (m_objectMaterials s); reflexivity.
Qed.

Lemma eval_draw (m : Mesh)
    (sh : ShaderManager) (s : SceneManager) (log : list DrawCall) :
  draw m (with_shader sh s, log)
  = Some (with_shader sh s, mkDrawCall m (Some sh) :: log).
Proof. reflexivity. Qed.

(** The material upload writes the three material uniforms only. *)
Lemma u_material_other (mats : list OBJECT_MATERIAL) (garbage : OBJECT_MATERIAL)
    (tag : string) (sh : ShaderManager) (name : string) :
  name <> "material.diffuseColor" -> name <> "material.specularColor" ->
  name <> "material.shininess" ->
  u_material mats garbage tag sh !! name = sh !! name.
Proof.
  intros H1 H2 H3. unfold u_material. destruct mats; [done|].
  unfold upload_material, setUniform. by rewrite !lookup_insert_ne.
Qed.

Lemma u_material_first (mats : list OBJECT_MATERIAL) (garbage : OBJECT_MATERIAL)
    (tag : string) (sh : ShaderManager) (i : nat) (m : OBJECT_MATERIAL) :
  mats !! i = Some m -> mat_tag m = tag ->
  (forall j m', (j < i)%nat -> mats !! j = Some m' -> mat_tag m' <> tag) ->
  u_material mats garbage tag sh !! "material.diffuseColor"
    = Some (UVec3 (diffuseColor m)) /\
  u_material mats garbage tag sh !! "material.specularColor"
    = Some (UVec3 (specularColor m)) /\
  u_material mats garbage tag sh !! "material.shininess"
    = Some (UFloat (shininess m)).
Proof.
  intros Hi Htag Hbefore. unfold u_material.
  destruct mats as [|x l] eqn:Hm; [by destruct i|]. rewrite <- Hm in *.
  rewrite (FindMaterial_scan_first mats tag garbage i m Hi Htag Hbefore).
  exact (upload_material_lookup
           (mkMaterial (mat_tag garbage) (diffuseColor m) (specularColor m)
              (shininess m)) sh).
Qed.

(** The half turn about Y in coordinates. *)
Lemma modelView_half_turn_y_point (k t : vec3) (x y z w : R) :
  glm.mul_vec (modelView k 0 180 0 t) (mkVec4 x y z w) =
  mkVec4 (v3x t * w - v3x k * x)%R (v3y k * y + v3y t * w)%R
         (v3z t * w - v3z k * z)%R w.
Proof.
  rewrite modelView_point, radians_0, radians_180.
  rewrite rotate_x_point_0, rotate_z_point_0.
  unfold rotate_y_point. rewrite cos_PI, sin_PI.
  unfold translate_point, scale_point.
  cbn [v4x v4y v4z v4w]. vec_eq.
Qed.

Ltac run_draws :=
  repeat (first
    [ rewrite eval_transform
    | rewrite eval_color
    | erewrite eval_texture by eassumption
    | rewrite eval_material
    | rewrite eval_draw ];
    cbn [mbind option_bind]).

Ltac uniform_through :=
  repeat first
    [ rewrite u_material_other by discriminate
    | progress (unfold u_color, u_texture, u_model, setUniform)
    | rewrite lookup_insert_ne by discriminate
    | rewrite lookup_insert_eq ];
  try reflexivity.

(** X27. [DrawMountain] issues one pyramid.  Its model matrix sends
    (x,y,z,w) to (posx*w - scale*x, posy*w + scale*y, posz*w - scale*z, w);
    it is drawn textured, with the sampler of the tag "stone" ([-1] when the
    tag is not registered), the colour (0.5,0.5,0.5,1) and, when the catalog
    has the tag "wood", the values of its first entry "wood". *)
Theorem DrawMountain_draws
    (garbage : OBJECT_MATERIAL) (posx posy posz scale : R)
    (s : SceneManager) (sh : ShaderManager) (log : list DrawCall) :
  registry_ok s ->
  m_pShaderManager s = Some sh ->
  exists sh' slot M,
    DrawMountain garbage posx posy posz scale (s, log)
      = Some (with_shader sh' s, mkDrawCall Pyramid3Mesh (Some sh') :: log) /\
    FindTextureSlot "stone" s = Some slot /\
    sh' !! "model" = Some (UMat4 M) /\
    (forall x y z w,
       glm.mul_vec M (mkVec4 x y z w) =
       mkVec4 (posx * w - scale * x) (posy * w + scale * y)
              (posz * w - scale * z) w)%R /\
    sh' !! "bUseTexture" = Some (UInt 1) /\
    sh' !! "objectTexture" = Some (USampler slot) /\
    sh' !! "objectColor" = Some (UVec4 (mkVec4 0.5 0.5 0.5 1)) /\
    (forall i m,
       m_objectMaterials s !! i = Some m -> mat_tag m = "wood" ->
       (forall j m', (j < i)%nat -> m_objectMaterials s !! j = Some m' ->
          mat_tag m' <> "wood") ->
       sh' !! "material.diffuseColor" = Some (UVec3 (diffuseColor m)) /\
       sh' !! "material.specularColor" = Some (UVec3 (specularColor m)) /\
       sh' !! "material.shininess" = Some (UFloat (shininess m))).
Proof.
  intros Hok Hsh.
  destruct (FindTextureSlot_returns "stone" s Hok) as (slot & Hslot & _).
  replace (s, log) with (with_shader sh s, log)
    by (by rewrite with_shader_id).
  unfold DrawMountain. run_draws.
  eexists. exists slot. eexists.
  split; [reflexivity|]. split; [exact Hslot|].
  split; [uniform_through|].
  split.
  { intros x y z w. rewrite modelView_half_turn_y_point.
    cbn [v3x v3y v3z]. f_equal; ring. }
  split; [uniform_through|]. split; [uniform_through|].
  split; [uniform_through|].
  intros i m Hi Htag Hbefore.
  by apply u_material_first with (i := i).
Qed.

Lemma materials_scene_ok : registry_ok materials_scene.
Proof. split; [reflexivity | vm_compute; split; discriminate]. Defined.

Lemma DrawMountain_draws_witness :
  registry_ok materials_scene /\ m_pShaderManager materials_scene = Some ∅ /\
  exists sh',
    DrawMountain stale_material (-50) 25 (-80) 50 (materials_scene, [])
      = Some (with_shader sh' materials_scene,
              [mkDrawCall Pyramid3Mesh (Some sh')]) /\
    sh' !! "bUseTexture" = Some (UInt 1) /\
    sh' !! "material.shininess" = Some (UFloat (1/10)).
Proof.
  split; [exact materials_scene_ok|]. split; [reflexivity|].
  destruct (DrawMountain_draws stale_material (-50) 25 (-80) 50
              materials_scene ∅ [] materials_scene_ok eq_refl)
    as (sh' & slot & M & Hrun & _ & _ & _ & Htex & _ & _ & Hmat).
  exists sh'. split; [exact Hrun|]. split; [exact Htex|].
  apply (Hmat 0%nat woodMaterial); [reflexivity | reflexivity |].
  intros j m' Hj. lia.
Defined.

(** X28. [DrawCloud] issues six spheres, none of them textured: each is drawn
    with texturing off and the colour (0.9,0.9,0.9,1), whatever was set
    before the call; the sampler and the UV scale are those found on
    entry. *)
Theorem DrawCloud_untextured
    (garbage : OBJECT_MATERIAL) (posx posy posz scale : R)
    (s : SceneManager) (sh : ShaderManager) (log : list DrawCall) :
  m_pShaderManager s = Some sh ->
  exists s' new,
    DrawCloud garbage posx posy posz scale (s, log) = Some (s', new ++ log) /\
    length new = 6%nat /\
    Forall
      (fun c =>
         dc_mesh c = SphereMesh /\
         exists shc,
           dc_uniforms c = Some shc /\
           shc !! "bUseTexture" = Some (UInt 0) /\
           shc !! "objectColor" = Some (UVec4 (mkVec4 0.9 0.9 0.9 1)) /\
           shc !! "objectTexture" = sh !! "objectTexture" /\
           shc !! "UVscale" = sh !! "UVscale")
      new.
Proof.
  intros Hsh.
  replace (s, log) with (with_shader sh s, log)
    by (by rewrite with_shader_id).
  unfold DrawCloud. run_draws.
  eexists _, [_; _; _; _; _; _].
  split; [reflexivity|]. split; [reflexivity|].
  repeat (apply Forall_cons; split;
          [split; [reflexivity|]; eexists; split; [reflexivity|];
           repeat split; uniform_through|]).
  constructor.
Qed.

Lemma DrawCloud_untextured_witness :
  m_pShaderManager materials_scene = Some ∅ /\
  exists s' new,
    DrawCloud stale_material 10 100 (-80) 2 (materials_scene, [])
      = Some (s', new ++ []) /\
    length new = 6%nat.
Proof.
  split; [reflexivity|].
  destruct (DrawCloud_untextured stale_material 10 100 (-80) 2
              materials_scene ∅ [] eq_refl) as (s' & new & Hrun & Hlen & _).
  exists s', new. split; [exact Hrun | exact Hlen].
Defined.

(** ** Scene composer: placement *)













(** ** Scene composer: the whole frame *)

Lemma completes_ret (s : SceneManager) : completes s 0 (fun fr => Some fr).
Proof. intros sh log. exists sh, []. repeat split. constructor. Qed.

Lemma completes_bind (s : SceneManager) (n m k : nat)
    (F K : Frame -> option Frame) :
  completes s n F -> completes s m K -> k = (m + n)%nat ->
  completes s k (fun fr => F fr ≫= K).
Proof.
  intros HF HK -> sh log.
  destruct (HF sh log) as (sh1 & new1 & Hr1 & Hl1 & Ha1).
  destruct (HK sh1 (new1 ++ log)) as (sh2 & new2 & Hr2 & Hl2 & Ha2).
  exists sh2, (new2 ++ new1). rewrite Hr1. cbn [mbind option_bind].
  rewrite Hr2, <- app_assoc. split; [reflexivity|].
  split; [rewrite length_app; lia|]. by apply Forall_app.
Qed.

Section ComposerCompletes.

Variable garbage : OBJECT_MATERIAL.
Variable s : SceneManager.
Hypothesis Hok : registry_ok s.

Ltac completes_by_running f :=
  intros sh log;
  destruct (FindTextureSlot_returns "log" s Hok) as (slot1 & Hslot1 & _);
  destruct (FindTextureSlot_returns "leaves" s Hok) as (slot2 & Hslot2 & _);
  destruct (FindTextureSlot_returns "pineleaves" s Hok)
    as (slot3 & Hslot3 & _);
  destruct (FindTextureSlot_returns "stone" s Hok) as (slot4 & Hslot4 & _);
  unfold f; run_draws.

Ltac all_have_uniforms :=
  repeat (apply Forall_cons; split; [eexists; reflexivity|]); constructor.

Lemma DrawPlanes_completes (x y z : R) :
  completes s 2 (DrawPlanes garbage x y z).
Proof.
  completes_by_running DrawPlanes. eexists _, [_; _].
  split; [reflexivity|]. split; [reflexivity|]. all_have_uniforms.
Qed.

Lemma DrawSphericalTree_completes (x y z : R) :
  completes s 3 (DrawSphericalTree garbage x y z).
Proof.
  completes_by_running DrawSphericalTree. eexists _, [_; _; _].
  split; [reflexivity|]. split; [reflexivity|]. all_have_uniforms.
Qed.

Lemma DrawPyramidTree_completes (x y z : R) :
  completes s 4 (DrawPyramidTree garbage x y z).
Proof.
  completes_by_running DrawPyramidTree. eexists _, [_; _; _; _].
  split; [reflexivity|]. split; [reflexivity|]. all_have_uniforms.
Qed.

Lemma DrawMountain_completes (x y z k : R) :
  completes s 1 (DrawMountain garbage x y z k).
Proof.
  completes_by_running DrawMountain. eexists _, [_].
  split; [reflexivity|]. split; [reflexivity|]. all_have_uniforms.
Qed.

Lemma DrawCloud_completes (x y z k : R) :
  completes s 6 (DrawCloud garbage x y z k).
Proof.
  completes_by_running DrawCloud. eexists _, [_; _; _; _; _; _].
  split; [reflexivity|]. split; [reflexivity|]. all_have_uniforms.
Qed.

Ltac completes_one :=
  lazymatch goal with
  | |- completes _ _ (fun fr => DrawPlanes _ _ _ _ fr) =>
      apply DrawPlanes_completes
  | |- completes _ _ (fun fr => DrawSphericalTree _ _ _ _ fr) =>
      apply DrawSphericalTree_completes
  | |- completes _ _ (fun fr => DrawPyramidTree _ _ _ _ fr) =>
      apply DrawPyramidTree_completes
  | |- completes _ _ (fun fr => DrawMountain _ _ _ _ _ fr) =>
      apply DrawMountain_completes
  | |- completes _ _ (fun fr => DrawCloud _ _ _ _ _ fr) =>
      apply DrawCloud_completes
  end.

Ltac completes_chain :=
  lazymatch goal with
  | |- completes _ _ (fun fr => Some fr) => apply completes_ret
  | |- completes ?s _ (fun fr => mbind ?K (@?F fr)) =>
      eapply (completes_bind s _ _ _ F K);
        [ completes_one | completes_chain | reflexivity ]
  end.

Lemma RenderScene_completes_46 : completes s 46 (RenderScene garbage).
Proof. unfold RenderScene. completes_chain. Qed.

End ComposerCompletes.

(** X30. With a shader manager attached, [RenderScene] returns, issues 46
    draws, each with a uniform state, and changes nothing but the uniform
    state: registry, catalog and context are as before.  Without a shader
    manager and with a material defined, it calls through the null pointer
    at its first [SetShaderMaterial]. *)
Theorem RenderScene_completes
    (garbage : OBJECT_MATERIAL) (s : SceneManager) (log : list DrawCall) :
  (registry_ok s ->
   forall sh, m_pShaderManager s = Some sh ->
   exists sh' new,
     RenderScene garbage (s, log) = Some (with_shader sh' s, new ++ log) /\
     length new = 46%nat /\
     Forall (fun c => is_Some (dc_uniforms c)) new) /\
  (m_pShaderManager s = None -> m_objectMaterials s <> [] ->
   RenderScene garbage (s, log) = None).
Proof.
  split.
  - intros Hok sh Hsh.
    replace (s, log) with (with_shader sh s, log)
      by (by rewrite with_shader_id).
    apply (RenderScene_completes_46 garbage s Hok).
  - intros Hnull Hne. destruct s as [p arr n mats w].
    cbn [m_pShaderManager m_objectMaterials] in Hnull, Hne. subst p.
    destruct mats as [|m mats]; [done|]. reflexivity.
Qed.

Lemma RenderScene_completes_witness :
  registry_ok materials_scene /\
  (exists sh' new,
     RenderScene stale_material (materials_scene, [])
       = Some (with_shader sh' materials_scene, new ++ []) /\
     length new = 46%nat) /\
  RenderScene stale_material (detached_scene, []) = None.
Proof.
  split; [exact materials_scene_ok|].
  destruct (RenderScene_completes stale_material materials_scene [])
    as [Hrun _].
  destruct (Hrun materials_scene_ok ∅ eq_refl) as (sh' & new & Hr & Hl & _).
  split; [exists sh', new; split; [exact Hr | exact Hl]|].
  apply (proj2 (RenderScene_completes stale_material detached_scene []));
    [reflexivity | discriminate].
Defined.
